(** * Diabetic-retinopathy web application: analysis lifecycle and history

    A shallow embedding of [WebApllication/src/App.tsx] together with the
    constants and types it imports ([DR_LEVELS], [DR_DESCRIPTIONS],
    [DEFAULT_IMAGE_FILTERS], [AnalysisResult], [ImageFilters]).

    - JavaScript strings are modelled as [string]: sequences of code units
      below 256.  White space and line terminators outside that range
      (U+1680, U+2000..U+200A, U+2028, U+2029, U+202F, U+205F, U+3000,
      U+FEFF) are therefore not represented.
    - JavaScript numbers that hold integers are modelled as [Z]; [NaN] is
      [None].  [parseInt] rounds very long digit strings to a double and
      may return [-0]; both only matter through the comparisons with [0]
      and [4], which rounding preserves, and [-0] indexes the same table
      entry as [0].
    - The React component is a record of its state variables; the
      asynchronous handlers are cut at their [await] points and driven by
      events (file dropped, reader finished, model answered, timer fired,
      user clicked), one event per browser task. *)

From Stdlib Require Import ZArith Lia Ascii String.
From stdpp Require Import base list strings.

Open Scope string_scope.

(** ** JavaScript string primitives used by the application *)

Module Js.

Definition code (c : ascii) : Z := Z.of_N (N_of_ascii c).

Definition between (lo hi : Z) (c : ascii) : bool :=
  ((lo <=? code c) && (code c <=? hi))%Z.

(** [WhiteSpace] and [LineTerminator] code units below 256: TAB, LF, VT,
    FF, CR, SPACE, NBSP. *)
Definition is_white_space (c : ascii) : bool :=
  between 9 13 c || (code c =? 32)%Z || (code c =? 160)%Z.

Definition is_line_terminator (c : ascii) : bool :=
  (code c =? 10)%Z || (code c =? 13)%Z.

Definition is_empty (s : string) : bool :=
  match s with EmptyString => true | String _ _ => false end.

Fixpoint trimStart (s : string) : string :=
  match s with
  | EmptyString => EmptyString
  | String c r => if is_white_space c then trimStart r else s
  end.

Fixpoint trimEnd (s : string) : string :=
  match s with
  | EmptyString => EmptyString
  | String c r =>
      let r' := trimEnd r in
      if is_white_space c && is_empty r' then EmptyString else String c r'
  end.

(** [String.prototype.trim] *)
Definition trim (s : string) : string := trimEnd (trimStart s).

(** [s.startsWith(p)], returning what follows the prefix. *)
Fixpoint strip_prefix (p s : string) : option string :=
  match p, s with
  | EmptyString, _ => Some s
  | String a p', String b s' =>
      if Ascii.eqb a b then strip_prefix p' s' else None
  | String _ _, EmptyString => None
  end.

(** [hay.includes(needle)] *)
Fixpoint includes (hay needle : string) : bool :=
  match strip_prefix needle hay with
  | Some _ => true
  | None =>
      match hay with
      | EmptyString => false
      | String _ r => includes r needle
      end
  end.

(** [arr.includes(x)] on an array of strings (strict equality). *)
Definition array_includes (arr : list string) (x : string) : bool :=
  existsb (String.eqb x) arr.

(** The value of a code unit as a digit of the given radix, as in
    [parseInt]: [0-9], then letters of either case for 10 and above. *)
Definition digit_val (radix : Z) (c : ascii) : option Z :=
  let v :=
    if between 48 57 c then Some (code c - 48)%Z
    else if between 97 122 c then Some (code c - 87)%Z
    else if between 65 90 c then Some (code c - 55)%Z
    else None in
  match v with
  | Some d => if (d <? radix)%Z then Some d else None
  | None => None
  end.

(** The digits of the longest prefix of [s] made of radix-[radix] digits. *)
Fixpoint digits_prefix (radix : Z) (s : string) : list Z :=
  match s with
  | EmptyString => []
  | String c r =>
      match digit_val radix c with
      | Some d => d :: digits_prefix radix r
      | None => []
      end
  end.

Definition digits_value (radix : Z) (ds : list Z) : Z :=
  fold_left (fun acc d => acc * radix + d)%Z ds 0%Z.

(** [parseInt(s)] with no radix argument (ECMAScript 19.2.5): skip
    leading white space, read an optional sign, switch to radix 16 after
    a [0x] or [0X] prefix, read the longest run of digits; [NaN] ([None])
    when that run is empty. *)
Definition parseInt (s : string) : option Z :=
  let s1 := trimStart s in
  let '(sign, s2) :=
    match s1 with
    | String c r =>
        if Ascii.eqb c "-" then ((-1)%Z, r)
        else if Ascii.eqb c "+" then (1%Z, r)
        else (1%Z, s1)
    | EmptyString => (1%Z, s1)
    end in
  let '(radix, s3) :=
    match s2 with
    | String c0 (String c1 r) =>
        if Ascii.eqb c0 "0" && (Ascii.eqb c1 "x" || Ascii.eqb c1 "X")
        then (16%Z, r)
        else (10%Z, s2)
    | _ => (10%Z, s2)
    end in
  match digits_prefix radix s3 with
  | [] => None
  | ds => Some (sign * digits_value radix ds)%Z
  end.

(** Longest prefix of [s] whose code units satisfy [p], and the rest. *)
Fixpoint span (p : ascii -> bool) (s : string) : string * string :=
  match s with
  | EmptyString => (EmptyString, EmptyString)
  | String c r =>
      if p c then let '(a, b) := span p r in (String c a, b)
      else (EmptyString, s)
  end.

Fixpoint forallb_string (p : ascii -> bool) (s : string) : bool :=
  match s with
  | EmptyString => true
  | String c r => p c && forallb_string p r
  end.

(** What a JavaScript [catch] clause can receive. *)
Inductive Thrown :=
| ErrorObj (message : string)   (* [err instanceof Error] *)
| NonError.                     (* any other thrown value *)

End Js.

(** ** Constants ([constants.ts]) and types ([types.ts]) *)

(** A lookup [TABLE[n]] in an object literal with keys [0..4]; any other
    key gives [undefined], written [None]. *)
Definition DR_LEVELS (n : Z) : option string :=
  match n with
  | 0%Z => Some "No DR"
  | 1%Z => Some "Mild DR"
  | 2%Z => Some "Moderate DR"
  | 3%Z => Some "Severe DR"
  | 4%Z => Some "Proliferative DR"
  | _ => None
  end.

Definition DR_DESCRIPTIONS (n : Z) : option string :=
  match n with
  | 0%Z => Some "No visible signs of diabetic retinopathy. Regular screening should continue as recommended by your healthcare provider."
  | 1%Z => Some "Mild non-proliferative diabetic retinopathy (NPDR) with microaneurysms. Monitor closely and maintain good blood sugar control."
  | 2%Z => Some "Moderate NPDR with multiple microaneurysms, dot and blot hemorrhages, and hard exudates. More frequent monitoring required."
  | 3%Z => Some "Severe NPDR with extensive hemorrhages, venous beading, and intraretinal microvascular abnormalities (IRMA). Immediate medical attention needed."
  | 4%Z => Some "Proliferative diabetic retinopathy (PDR) with neovascularization and potential vitreous hemorrhage. Urgent treatment required."
  | _ => None
  end.

Record ImageFilters := {
  brightness : Z;
  contrast : Z;
  saturation : Z
}.

Definition DEFAULT_IMAGE_FILTERS : ImageFilters :=
  {| brightness := 100; contrast := 100; saturation := 100 |}.

(** [description] is typed [string] in [types.ts]; at run time it holds
    whatever the table lookup gave, so [undefined] is representable. *)
Record AnalysisResult := {
  id : string;
  timestamp : Z;
  imageUrl : string;
  level : Z;
  description : option string
}.

(** The part of a browser [File] the handlers read. *)
Record File := {
  file_type : string;
  file_size : Z
}.

(** ** Messages carried by the errors the handlers throw *)

Definition MSG_NO_API_KEY := "Gemini API key is not configured".
Definition MSG_INVALID_FORMAT := "Invalid image format".
Definition MSG_UNSUPPORTED_FORMAT :=
  "Unsupported image format. Please use JPEG or PNG.".
Definition MSG_TIMED_OUT := "Analysis timed out. Please try again.".
Definition MSG_NO_RESPONSE :=
  "Failed to get a valid response from the AI model".
Definition MSG_INVALID_RESPONSE := "Invalid model response. Please try again.".
Definition MSG_UNAUTHENTICATED :=
  "API key is invalid or expired. Please check your configuration.".
Definition MSG_PERMISSION_DENIED :=
  "Access denied. Please check your API key permissions.".
Definition MSG_QUOTA := "API quota exceeded. Please try again later.".
Definition MSG_TOO_LARGE :=
  "Image size exceeds limits. Please use a smaller image (max 4MB).".
Definition MSG_NETWORK :=
  "Network error. Please check your internet connection.".
Definition MSG_ANALYZE_FAILED :=
  "Failed to analyze the image. Please try again.".
Definition MSG_READ_RESULT := "Failed to read image file".
Definition MSG_READ_ERROR := "Failed to read the image file.".
Definition MSG_BAD_TYPE := "Please upload a valid JPEG or PNG image.".
Definition MSG_BAD_SIZE := "Image size must be less than 4MB.".
Definition MSG_UNEXPECTED :=
  "An unexpected error occurred. Please try again.".

Definition SYSTEM_PROMPT : string :=
"You are an expert ophthalmologist specializing in diabetic retinopathy (DR). 
Analyze the retinal image and classify it into one of these categories:
0: No DR - No visible signs of diabetic retinopathy
1: Mild DR - Presence of microaneurysms only
2: Moderate DR - More than just microaneurysms but less than severe DR
3: Severe DR - Any of: >20 intraretinal hemorrhages, definite venous beading, prominent IRMA
4: Proliferative DR - Presence of neovascularization and/or vitreous/preretinal hemorrhage

Respond with ONLY the number (0-4) that corresponds to the DR severity level.".

Definition SUPPORTED_TYPES : list string := ["image/jpeg"; "image/png"].

(** [const timeoutMs = 30000] in [analyzeImage]. *)
Definition timeoutMs : Z := 30000.

(** [const maxSize = 4 * 1024 * 1024] in [onDrop]. *)
Definition maxSize : Z := 4 * 1024 * 1024.

(** ** The remote classifier client: [analyzeImage] *)

(** [imageData.match(/^data:([A-Za-z-+/]+);base64,(.+)$/)]: the two
    capture groups.  The class of the first group excludes [;], so its
    greedy run is the only candidate; [.] excludes line terminators and
    [$] has no multiline flag. *)
Definition is_mime_char (c : ascii) : bool :=
  Js.between 65 90 c || Js.between 97 122 c
  || (Js.code c =? 45)%Z || (Js.code c =? 43)%Z || (Js.code c =? 47)%Z.

Definition match_data_url (imageData : string) : option (string * string) :=
  match Js.strip_prefix "data:" imageData with
  | None => None
  | Some r =>
      let '(mimeType, r1) := Js.span is_mime_char r in
      if Js.is_empty mimeType then None
      else
        match Js.strip_prefix ";base64," r1 with
        | None => None
        | Some base64Data =>
            if Js.is_empty base64Data then None
            else if Js.forallb_string (fun c => negb (Js.is_line_terminator c))
                      base64Data
            then Some (mimeType, base64Data)
            else None
        end
  end.

(** The argument of [model.generateContent]. *)
Record Request := {
  prompt : string;
  inlineData : string;
  mimeType : string
}.

(** What the promise of [model.generateContent] resolves to, as far as
    [analyzeImage] looks at it. *)
Inductive GenResult :=
| NoResponse                      (* [!result || !result.response] *)
| TextThrows (e : Js.Thrown)      (* [response.text()] throws *)
| Text (t : string).              (* [response.text()] returns [t] *)

(** How [Promise.race([resultPromise, timeoutPromise])] settles. *)
Inductive RaceOutcome :=
| RaceResolved (r : GenResult)
| RaceRejected (e : Js.Thrown).

(** The [catch (err)] clause of [analyzeImage]: the error it rethrows. *)
Definition analyzeImage_catch (err : Js.Thrown) : Js.Thrown :=
  match err with
  | Js.ErrorObj m =>
      if Js.includes m "UNAUTHENTICATED" then Js.ErrorObj MSG_UNAUTHENTICATED
      else if Js.includes m "PERMISSION_DENIED"
      then Js.ErrorObj MSG_PERMISSION_DENIED
      else if Js.includes m "RESOURCE_EXHAUSTED" then Js.ErrorObj MSG_QUOTA
      else if Js.includes m "size" || Js.includes m "too large"
      then Js.ErrorObj MSG_TOO_LARGE
      else if Js.includes m "timeout" then Js.ErrorObj MSG_TIMED_OUT
      else if Js.includes m "network" then Js.ErrorObj MSG_NETWORK
      else Js.ErrorObj m
  | Js.NonError => Js.ErrorObj MSG_ANALYZE_FAILED
  end.

(** [analyzeImage] up to the creation of the race: the request it sends,
    or the error it throws before sending one.  [apiKey] says whether
    [import.meta.env.VITE_GEMINI_API_KEY] is truthy; that check sits
    outside the [try]. *)
Definition analyzeImage_begin (apiKey : bool) (imageData : string)
  : Js.Thrown + Request :=
  if negb apiKey then inl (Js.ErrorObj MSG_NO_API_KEY)
  else
    match match_data_url imageData with
    | None => inl (analyzeImage_catch (Js.ErrorObj MSG_INVALID_FORMAT))
    | Some (mimeType, base64Data) =>
        if negb (Js.array_includes SUPPORTED_TYPES mimeType)
        then inl (analyzeImage_catch (Js.ErrorObj MSG_UNSUPPORTED_FORMAT))
        else inr {| prompt := SYSTEM_PROMPT;
                    inlineData := base64Data;
                    mimeType := mimeType |}
    end.

(** [analyzeImage] after the race has settled: the level it returns or
    the error it throws. *)
Definition analyzeImage_settle (o : RaceOutcome) : Js.Thrown + Z :=
  match o with
  | RaceRejected e => inl (analyzeImage_catch e)
  | RaceResolved NoResponse =>
      inl (analyzeImage_catch (Js.ErrorObj MSG_NO_RESPONSE))
  | RaceResolved (TextThrows e) => inl (analyzeImage_catch e)
  | RaceResolved (Text raw) =>
      let text := Js.trim raw in
      match Js.parseInt text with
      | None => inl (analyzeImage_catch (Js.ErrorObj MSG_INVALID_RESPONSE))
      | Some level =>
          if (level <? 0)%Z || (level >? 4)%Z
          then inl (analyzeImage_catch (Js.ErrorObj MSG_INVALID_RESPONSE))
          else inr level
      end
  end.

(** The record [processImage] builds once [analyzeImage] has returned. *)
Definition processImage_result (uuid : string) (now : Z)
    (imageData : string) (level : Z) : AnalysisResult :=
  {| id := uuid;
     timestamp := now;
     imageUrl := imageData;
     level := level;
     description := DR_DESCRIPTIONS level |}.

(** ** The history cache *)

(** [[result, ...prev].slice(0, 10)] *)
Definition history_add (result : AnalysisResult)
    (prev : list AnalysisResult) : list AnalysisResult :=
  take 10 (result :: prev).

(** [prev.filter((item) => item.id !== id)] *)
Definition history_delete (i : string)
    (prev : list AnalysisResult) : list AnalysisResult :=
  List.filter (fun item => negb (String.eqb (id item) i)) prev.

(** ** Component state *)

(** The [useState] variables of [App] the handlers below touch, and
    [history], which [useLocalStorage] holds under ["analysisHistory"]. *)
Record AppState := {
  image : option string;
  loading : bool;
  prediction : option AnalysisResult;
  error : option string;
  showHistory : bool;
  history : list AnalysisResult;
  imageFilters : ImageFilters
}.

Definition setImage (v : option string) (s : AppState) : AppState :=
  {| image := v; loading := loading s; prediction := prediction s;
     error := error s; showHistory := showHistory s; history := history s;
     imageFilters := imageFilters s |}.

Definition setLoading (v : bool) (s : AppState) : AppState :=
  {| image := image s; loading := v; prediction := prediction s;
     error := error s; showHistory := showHistory s; history := history s;
     imageFilters := imageFilters s |}.

Definition setPrediction (v : option AnalysisResult) (s : AppState)
  : AppState :=
  {| image := image s; loading := loading s; prediction := v;
     error := error s; showHistory := showHistory s; history := history s;
     imageFilters := imageFilters s |}.

Definition setError (v : option string) (s : AppState) : AppState :=
  {| image := image s; loading := loading s; prediction := prediction s;
     error := v; showHistory := showHistory s; history := history s;
     imageFilters := imageFilters s |}.

Definition setShowHistory (v : bool) (s : AppState) : AppState :=
  {| image := image s; loading := loading s; prediction := prediction s;
     error := error s; showHistory := v; history := history s;
     imageFilters := imageFilters s |}.

Definition setImageFilters (v : ImageFilters) (s : AppState) : AppState :=
  {| image := image s; loading := loading s; prediction := prediction s;
     error := error s; showHistory := showHistory s; history := history s;
     imageFilters := v |}.

(** Modelled from the spec: the hook [useLocalStorage]
    ([hooks/useLocalStorage]) is not among the sources.  Its setter is
    taken to apply a functional update to the current value, which the
    hook then persists as a whole. *)
Definition setHistory (f : list AnalysisResult -> list AnalysisResult)
    (s : AppState) : AppState :=
  {| image := image s; loading := loading s; prediction := prediction s;
     error := error s; showHistory := showHistory s;
     history := f (history s); imageFilters := imageFilters s |}.

(** [if (image)]: [null] and the empty string are falsy. *)
Definition truthy (v : option string) : bool :=
  match v with
  | Some s => negb (Js.is_empty s)
  | None => false
  end.

(** ** The page: component state, browser resources, pending work *)

(** Where one call of [onDrop] stands. *)
Inductive Phase :=
| Reading
    (* [reader.readAsDataURL(file)] is in progress *)
| Racing (imageData : string) (deadline : Z)
    (* [analyzeImage] awaits [Promise.race]; the timer is due at
       [deadline] *)
| TimedOut
    (* the timer settled the race; the network call is still out *)
| Answered (deadline : Z)
    (* the network call settled the race; the timer is still armed *)
| Over.
    (* nothing of this call is pending *)

(** One call of [onDrop] together with what its closure captured:
    [closure_image] is the value of the identifier [image] inside the
    callback. *)
Record Attempt := {
  closure_image : option string;
  phase : Phase
}.

(** What does not change while the page lives.  [setHistory_stable] says
    whether the setter returned by [useLocalStorage] keeps its identity
    across renders: [onDrop] is memoised by [useCallback] on
    [[setHistory]] alone, so with a stable setter the callback of the
    first render (where [image] is [null]) is kept for good, and
    otherwise the callback of the latest render is used. *)
Record Env := {
  apiKey : bool;
  setHistory_stable : bool
}.

Record World := {
  ui : AppState;
  objectUrls : list string;     (* created by [URL.createObjectURL], not yet revoked *)
  requests : list Request;      (* calls of [model.generateContent], oldest first *)
  attempts : list Attempt;      (* calls of [onDrop] that passed validation *)
  clock : Z;                    (* milliseconds *)
  env : Env
}.

Definition with_ui (f : AppState -> AppState) (w : World) : World :=
  {| ui := f (ui w); objectUrls := objectUrls w; requests := requests w;
     attempts := attempts w; clock := clock w; env := env w |}.

Definition createObjectURL (u : string) (w : World) : World :=
  {| ui := ui w; objectUrls := u :: objectUrls w; requests := requests w;
     attempts := attempts w; clock := clock w; env := env w |}.

Definition revokeObjectURL (u : string) (w : World) : World :=
  {| ui := ui w;
     objectUrls := List.filter (fun v => negb (String.eqb v u)) (objectUrls w);
     requests := requests w; attempts := attempts w; clock := clock w;
     env := env w |}.

Definition generateContent (r : Request) (w : World) : World :=
  {| ui := ui w; objectUrls := objectUrls w; requests := requests w ++ [r];
     attempts := attempts w; clock := clock w; env := env w |}.

Definition set_attempts (l : list Attempt) (w : World) : World :=
  {| ui := ui w; objectUrls := objectUrls w; requests := requests w;
     attempts := l; clock := clock w; env := env w |}.

Definition set_phase (a : nat) (p : Phase) (w : World) : World :=
  match attempts w !! a with
  | Some at_ =>
      set_attempts
        (<[a := {| closure_image := closure_image at_; phase := p |}]>
           (attempts w)) w
  | None => w
  end.

Definition advance (ms : Z) (w : World) : World :=
  {| ui := ui w; objectUrls := objectUrls w; requests := requests w;
     attempts := attempts w; clock := (clock w + ms)%Z; env := env w |}.

Definition phase_of (a : nat) (w : World) : option Phase :=
  phase <$> attempts w !! a.

(** The value of [image] seen by the [onDrop] callback in use. *)
Definition onDrop_image (w : World) : option string :=
  if setHistory_stable (env w) then None else image (ui w).

(** ** [onDrop] *)

(** The [catch] and [finally] clauses of [onDrop]; [image] there is the
    identifier captured by the callback, not the preview the call set. *)
Definition onDrop_catch (captured : option string) (err : Js.Thrown)
    (w : World) : World :=
  let msg := match err with
             | Js.ErrorObj m => m
             | Js.NonError => MSG_UNEXPECTED
             end in
  let w1 := with_ui (setError (Some msg)) w in
  let w2 := if truthy captured
            then match captured with
                 | Some u => with_ui (setImage None) (revokeObjectURL u w1)
                 | None => w1
                 end
            else w1 in
  with_ui (setLoading false) w2.

(** The statements after [await processImage(file)], then [finally]. *)
Definition onDrop_success (result : AnalysisResult) (w : World) : World :=
  let w1 := with_ui (setPrediction (Some result)) w in
  let w2 := with_ui (setHistory (history_add result)) w1 in
  with_ui (setLoading false) w2.

(** The two checks at the head of [onDrop]: the error thrown, if any. *)
Definition onDrop_validate (file : File) : option Js.Thrown :=
  if negb (Js.array_includes SUPPORTED_TYPES (file_type file))
  then Some (Js.ErrorObj MSG_BAD_TYPE)
  else if (file_size file >? maxSize)%Z
  then Some (Js.ErrorObj MSG_BAD_SIZE)
  else None.

(** [onDrop(acceptedFiles)] up to its [await]; [objectUrl] is what
    [URL.createObjectURL(file)] returns. *)
Definition onDrop (acceptedFiles : list File) (objectUrl : string)
    (w : World) : World :=
  match acceptedFiles with
  | [] => w
  | file :: _ =>
      let captured := onDrop_image w in
      match onDrop_validate file with
      | Some err => onDrop_catch captured err w
      | None =>
          let w1 := with_ui (setLoading true) w in
          let w2 := with_ui (setError None) w1 in
          let w3 := with_ui (setPrediction None) w2 in
          let w4 := createObjectURL objectUrl w3 in
          let w5 := with_ui (setImage (Some objectUrl)) w4 in
          set_attempts
            (attempts w5 ++ [{| closure_image := captured; phase := Reading |}])
            w5
      end
  end.

(** [reader.onload] of [processImage] for attempt [a]: [result] is
    [reader.result] when it is a non-empty string. *)
Definition reader_onload (a : nat) (captured : option string)
    (result : option string) (w : World) : World :=
  match result with
  | None =>
      onDrop_catch captured (Js.ErrorObj MSG_READ_RESULT) (set_phase a Over w)
  | Some imageData =>
      if Js.is_empty imageData
      then onDrop_catch captured (Js.ErrorObj MSG_READ_RESULT)
             (set_phase a Over w)
      else
        match analyzeImage_begin (apiKey (env w)) imageData with
        | inl err => onDrop_catch captured err (set_phase a Over w)
        | inr req =>
            generateContent req
              (set_phase a (Racing imageData (clock w + timeoutMs)%Z) w)
        end
  end.

(** [reader.onerror] of [processImage]. *)
Definition reader_onerror (a : nat) (captured : option string)
    (w : World) : World :=
  onDrop_catch captured (Js.ErrorObj MSG_READ_ERROR) (set_phase a Over w).

(** The rest of the attempt once the race has settled with [o]: the end
    of [analyzeImage], of [reader.onload] and of [onDrop].  [uuid] is what
    [crypto.randomUUID()] returns; [Date.now()] is the clock. *)
Definition race_settled (captured : option string) (imageData : string)
    (o : RaceOutcome) (uuid : string) (w : World) : World :=
  match analyzeImage_settle o with
  | inl err => onDrop_catch captured err w
  | inr level =>
      onDrop_success (processImage_result uuid (clock w) imageData level) w
  end.

(** ** The other handlers *)

Definition resetAnalysis (w : World) : World :=
  let w1 := if truthy (image (ui w))
            then match image (ui w) with
                 | Some u => revokeObjectURL u w
                 | None => w
                 end
            else w in
  let w2 := with_ui (setImage None) w1 in
  let w3 := with_ui (setPrediction None) w2 in
  let w4 := with_ui (setError None) w3 in
  with_ui (setImageFilters DEFAULT_IMAGE_FILTERS) w4.

Definition deleteFromHistory (i : string) (w : World) : World :=
  with_ui (setHistory (history_delete i)) w.

Definition selectFromHistory (result : AnalysisResult) (w : World) : World :=
  let w1 := with_ui (setImage (Some (imageUrl result))) w in
  let w2 := with_ui (setPrediction (Some result)) w1 in
  let w3 := with_ui (setError None) w2 in
  with_ui (setShowHistory false) w3.

(** ** Events and steps *)

(** One browser task each.  Attempts are numbered in the order in which
    [onDrop] started them. *)
Inductive Event :=
| Drop (acceptedFiles : list File) (objectUrl : string)
| ReaderLoad (a : nat) (result : option string)
| ReaderError (a : nat)
| ModelResolved (a : nat) (r : GenResult) (uuid : string)
| ModelRejected (a : nat) (e : Js.Thrown)
| TimerFired (a : nat)
| Tick (ms : Z)
| ClickReset
| ClickDelete (i : string)
| ClickSelect (n : nat)          (* the [n]-th entry of the history panel *)
| ClickToggleHistory
| ClickCloseHistory
| ChangeFilters (f : ImageFilters).

(** The network call of attempt [a] settles with [o].  While the race is
    pending this settles it and the attempt runs to its end; after the
    timer has won, the race is already settled and nothing is waiting for
    the call. *)
Definition network_settles (a : nat) (o : RaceOutcome) (uuid : string)
    (w : World) : option World :=
  match attempts w !! a with
  | Some at_ =>
      match phase at_ with
      | Racing imageData deadline =>
          Some (race_settled (closure_image at_) imageData o uuid
                  (set_phase a (Answered deadline) w))
      | TimedOut => Some (set_phase a Over w)
      | _ => None
      end
  | None => None
  end.

(** The callback of [setTimeout(..., timeoutMs)] of attempt [a] runs; it
    cannot run before its deadline.  After the network call has won, the
    [reject] it calls has no effect. *)
Definition timer_fires (a : nat) (w : World) : option World :=
  match attempts w !! a with
  | Some at_ =>
      match phase at_ with
      | Racing imageData deadline =>
          if (deadline <=? clock w)%Z
          then Some (race_settled (closure_image at_) imageData
                       (RaceRejected (Js.ErrorObj MSG_TIMED_OUT))
                       EmptyString (set_phase a TimedOut w))
          else None
      | Answered deadline =>
          if (deadline <=? clock w)%Z then Some (set_phase a Over w) else None
      | _ => None
      end
  | None => None
  end.

(** [step w ev] is [None] when [ev] cannot happen in [w]. *)
Definition step (w : World) (ev : Event) : option World :=
  match ev with
  | Drop acceptedFiles objectUrl => Some (onDrop acceptedFiles objectUrl w)
  | ReaderLoad a result =>
      match attempts w !! a with
      | Some at_ =>
          match phase at_ with
          | Reading => Some (reader_onload a (closure_image at_) result w)
          | _ => None
          end
      | None => None
      end
  | ReaderError a =>
      match attempts w !! a with
      | Some at_ =>
          match phase at_ with
          | Reading => Some (reader_onerror a (closure_image at_) w)
          | _ => None
          end
      | None => None
      end
  | ModelResolved a r uuid => network_settles a (RaceResolved r) uuid w
  | ModelRejected a e => network_settles a (RaceRejected e) EmptyString w
  | TimerFired a => timer_fires a w
  | Tick ms => if (0 <=? ms)%Z then Some (advance ms w) else None
  | ClickReset => Some (resetAnalysis w)
  | ClickDelete i => Some (deleteFromHistory i w)
  | ClickSelect n =>
      match history (ui w) !! n with
      | Some result => Some (selectFromHistory result w)
      | None => None
      end
  | ClickToggleHistory =>
      Some (with_ui (setShowHistory (negb (showHistory (ui w)))) w)
  | ClickCloseHistory => Some (with_ui (setShowHistory false) w)
  | ChangeFilters f => Some (with_ui (setImageFilters f) w)
  end.

Fixpoint run (w : World) (evs : list Event) : option World :=
  match evs with
  | [] => Some w
  | ev :: rest =>
      match step w ev with
      | Some w' => run w' rest
      | None => None
      end
  end.

(** The page after loading, with [stored] read from local storage. *)
Definition initial (e : Env) (stored : list AnalysisResult) : World :=
  {| ui := {| image := None; loading := false; prediction := None;
              error := None; showHistory := false; history := stored;
              imageFilters := DEFAULT_IMAGE_FILTERS |};
     objectUrls := []; requests := []; attempts := []; clock := 0;
     env := e |}.

(** ** Lifecycle states

    The render shows the spinner when [loading] is set, the error box when
    [error] is set and the result when [prediction] is set.  [lifecycle]
    names the state by the first of these that applies. *)
Inductive Lifecycle :=
| Idle
| Loading
| Success (result : AnalysisResult)
| Error (message : string).

Definition lifecycle (s : AppState) : Lifecycle :=
  if loading s then Loading
  else match error s with
       | Some m => Error m
       | None =>
           match prediction s with
           | Some r => Success r
           | None => Idle
           end
       end.

(** ** Sample inputs *)

Definition env0 : Env := {| apiKey := true; setHistory_stable := true |}.
Definition png100 : File := {| file_type := "image/png"; file_size := 100 |}.
Definition data0 : string := "data:image/png;base64,iVBORw0KGgo=".
Definition data1 : string := "data:image/jpeg;base64,/9j/4AAQSkZJRg==".

(** One upload answered with [" 3\n"]. *)
Definition success_trace : list Event :=
  [Drop [png100] "blob:1"; ReaderLoad 0 (Some data0);
   ModelResolved 0 (Text " 3
") "uuid-1"].

Definition result3 : AnalysisResult := processImage_result "uuid-1" 0 data0 3.

Definition entry (i : string) (lvl : Z) : AnalysisResult :=
  processImage_result i 0 data0 lvl.

Definition ten_entries : list AnalysisResult :=
  [entry "j" 0; entry "i" 1; entry "h" 2; entry "g" 3; entry "f" 4;
   entry "e" 0; entry "d" 1; entry "c" 2; entry "b" 3; entry "a" 4].

(** The page after [evs], starting empty with [env0]. *)
Definition world_after (evs : list Event) : World :=
  match run (initial env0 []) evs with
  | Some w => w
  | None => initial env0 []
  end.

(** One upload whose request is out. *)
Definition racing_world : World :=
  world_after [Drop [png100] "blob:1"; ReaderLoad 0 (Some data0)].

(** Two uploads, the second dropped while the request of the first is
    out; both requests are pending. *)
Definition overlap_trace : list Event :=
  [Drop [png100] "blob:1"; ReaderLoad 0 (Some data0);
   Drop [{| file_type := "image/jpeg"; file_size := 2048 |}] "blob:2";
   ReaderLoad 1 (Some data1)].

Definition overlap_world : World := world_after overlap_trace.

Definition answer_to_first : Event := ModelResolved 0 (Text "3") "uuid-1".

(** One upload whose timer fires after 30 s, and an answer 5 s later. *)
Definition timeout_trace : list Event :=
  [Drop [png100] "blob:1"; ReaderLoad 0 (Some data0); Tick 30000;
   TimerFired 0; Tick 5000].

(** ** Vocabulary of the properties *)

(** A result whose level is one of the five and whose description is the
    table entry of that level. *)
Definition result_ok (r : AnalysisResult) : Prop :=
  (0 <= level r <= 4)%Z /\ description r = DR_DESCRIPTIONS (level r).

(** Every result the page holds is such a result. *)
Definition results_ok (w : World) : Prop :=
  Forall result_ok (history (ui w)) /\
  forall r, prediction (ui w) = Some r -> result_ok r.

(** [ev] is the network call of attempt [a] settling. *)
Definition is_response (a : nat) (ev : Event) : bool :=
  match ev with
  | ModelResolved b _ _ => Nat.eqb a b
  | ModelRejected b _ => Nat.eqb a b
  | _ => false
  end.

(** The order in which an attempt goes through its phases. *)
Inductive phase_next : Phase -> Phase -> Prop :=
| next_request d dl : phase_next Reading (Racing d dl)
| next_no_request : phase_next Reading Over
| next_answered d dl : phase_next (Racing d dl) (Answered dl)
| next_timed_out d dl : phase_next (Racing d dl) TimedOut
| next_late_answer : phase_next TimedOut Over
| next_late_timer dl : phase_next (Answered dl) Over.

(** The timer of the attempt has settled its race. *)
Definition timed_out (a : nat) (w : World) : Prop :=
  phase_of a w = Some TimedOut \/ phase_of a w = Some Over.

(** How one step may change the history and the current result. *)
Inductive ui_change (w w' : World) : Prop :=
| change_none :
    history (ui w') = history (ui w) ->
    prediction (ui w') = prediction (ui w) \/ prediction (ui w') = None ->
    ui_change w w'
| change_add (o : RaceOutcome) (lvl : Z) (uuid imageData : string) :
    analyzeImage_settle o = inr lvl ->
    history (ui w') =
      history_add (processImage_result uuid (clock w) imageData lvl)
        (history (ui w)) ->
    prediction (ui w') =
      Some (processImage_result uuid (clock w) imageData lvl) ->
    ui_change w w'
| change_delete (i : string) :
    history (ui w') = history_delete i (history (ui w)) ->
    prediction (ui w') = prediction (ui w) ->
    ui_change w w'
| change_select (n : nat) (r : AnalysisResult) :
    history (ui w) !! n = Some r ->
    history (ui w') = history (ui w) ->
    prediction (ui w') = Some r ->
    ui_change w w'.

(** ** Statements the code does not satisfy, read literally *)

(** "A trimmed response that begins with a digit 0-4 followed by a
    non-digit gives that digit as the level." *)
Definition leading_digit_accepted : Prop :=
  forall (raw : string) (d c : ascii) (rest : string),
    Js.trim raw = String d (String c rest) ->
    Js.between 48 52 d = true ->
    Js.between 48 57 c = false ->
    analyzeImage_settle (RaceResolved (Text raw)) = inr (Js.code d - 48)%Z.

(** "Selecting a history entry makes no request and puts the page in the
    Success state with that entry." *)
Definition select_reaches_success : Prop :=
  forall (e : Env) (stored : list AnalysisResult) (evs : list Event)
         (w : World) (n : nat) (r : AnalysisResult),
    run (initial e stored) evs = Some w ->
    history (ui w) !! n = Some r ->
    exists w', step w (ClickSelect n) = Some w' /\
               requests w' = requests w /\
               error (ui w') = None /\
               lifecycle (ui w') = Success r.

(** "Once a newer attempt has started, the network call of an older
    attempt settling changes nothing in the component state." *)
Definition stale_resolution_ignored : Prop :=
  forall (e : Env) (stored : list AnalysisResult) (evs : list Event)
         (w : World) (a b : nat) (ev : Event) (w' : World),
    run (initial e stored) evs = Some w ->
    a < b -> is_Some (attempts w !! b) ->
    (exists d dl, phase_of a w = Some (Racing d dl)) ->
    is_response a ev = true ->
    step w ev = Some w' ->
    prediction (ui w') = prediction (ui w) /\
    history (ui w') = history (ui w).

(** ** Further vocabulary *)

(** The string [data:<mime>;base64,<payload>]. *)
Definition data_url (mime payload : string) : string :=
  "data:" +:+ mime +:+ ";base64," +:+ payload.

(** A non-empty string of code units that all satisfy [p]. *)
Definition nonempty_all (p : ascii -> bool) (s : string) : Prop :=
  s <> EmptyString /\ Js.forallb_string p s = true.

Definition not_line_terminator (c : ascii) : bool :=
  negb (Js.is_line_terminator c).

(** The part of [Js.parseInt] after the sign: the radix choice and the
    digits. *)
Definition parse_unsigned (sign : Z) (s2 : string) : option Z :=
  let '(radix, s3) :=
    match s2 with
    | String c0 (String c1 r) =>
        if Ascii.eqb c0 "0" && (Ascii.eqb c1 "x" || Ascii.eqb c1 "X")
        then (16%Z, r)
        else (10%Z, s2)
    | _ => (10%Z, s2)
    end in
  match Js.digits_prefix radix s3 with
  | [] => None
  | ds => Some (sign * Js.digits_value radix ds)%Z
  end.

(** The keywords the [catch] clause of [analyzeImage] looks for. *)
Definition catch_keywords : list string :=
  ["UNAUTHENTICATED"; "PERMISSION_DENIED"; "RESOURCE_EXHAUSTED"; "size";
   "too large"; "timeout"; "network"].

(** The messages that clause substitutes. *)
Definition catch_messages : list string :=
  [MSG_UNAUTHENTICATED; MSG_PERMISSION_DENIED; MSG_QUOTA; MSG_TOO_LARGE;
   MSG_TIMED_OUT; MSG_NETWORK; MSG_ANALYZE_FAILED].

(** A request as [analyzeImage] builds them. *)
Definition request_ok (r : Request) : Prop :=
  prompt r = SYSTEM_PROMPT /\
  (mimeType r = "image/jpeg" \/ mimeType r = "image/png") /\
  nonempty_all not_line_terminator (inlineData r).

Definition is_reading (a : Attempt) : bool :=
  match phase a with Reading => true | _ => false end.

(** The attempts whose file is still being read. *)
Definition reading (l : list Attempt) : nat :=
  length (List.filter is_reading l).

(** [ev] belongs to attempt [a]: its reader, its network call or its
    timer. *)
Definition attempt_event (a : nat) (ev : Event) : bool :=
  match ev with
  | ReaderLoad b _ | ReaderError b | ModelResolved b _ _
  | ModelRejected b _ | TimerFired b => Nat.eqb a b
  | _ => false
  end.

(** The race of attempt [a] has settled, or the attempt ended before
    making a request. *)
Definition settled (a : nat) (w : World) : Prop :=
  exists p, phase_of a w = Some p /\
            match p with
            | TimedOut | Answered _ | Over => True
            | Reading | Racing _ _ => False
            end.

(** ** What the components render ([HistoryPanel], the severity scale)
    and the filter sliders ([ImageFiltersComponent]) *)

(** One row of [HistoryPanel]: its React key, the image, the heading
    [DR_LEVELS[result.level]] and the description.  The date, formatted
    by [toLocaleDateString], is left out. *)
Record Row := {
  row_key : string;
  row_src : string;
  row_label : option string;
  row_description : option string
}.

Inductive PanelView :=
| NoHistoryYet
| Rows (rows : list Row).

Definition HistoryPanel (history : list AnalysisResult) : PanelView :=
  if Nat.eqb (length history) 0 then NoHistoryYet
  else Rows (map (fun result =>
                    {| row_key := id result;
                       row_src := imageUrl result;
                       row_label := DR_LEVELS (level result);
                       row_description := description result |})
               history).

(** The delete button of the [n]-th row: [onDelete(result.id)]. *)
Definition HistoryPanel_onDelete (n : nat) (w : World) : option World :=
  match history (ui w) !! n with
  | Some result => Some (deleteFromHistory (id result) w)
  | None => None
  end.

(** [Object.entries(DR_LEVELS)]: integer keys in ascending order. *)
Definition DR_LEVELS_entries : list (string * string) :=
  [("0", "No DR"); ("1", "Mild DR"); ("2", "Moderate DR");
   ("3", "Severe DR"); ("4", "Proliferative DR")].

(** [prediction.level === parseInt(level)]; nothing equals [NaN]. *)
Definition level_matches (lvl : Z) (key : string) : bool :=
  match Js.parseInt key with
  | Some n => (lvl =? n)%Z
  | None => false
  end.

(** The severity scale under a result: each label with whether its tile
    is highlighted. *)
Definition severity_scale (lvl : Z) : list (string * bool) :=
  map (fun '(key, label) => (label, level_matches lvl key)) DR_LEVELS_entries.

Inductive FilterKey := Brightness | Contrast | Saturation.

Definition filter_get (key : FilterKey) (f : ImageFilters) : Z :=
  match key with
  | Brightness => brightness f
  | Contrast => contrast f
  | Saturation => saturation f
  end.

(** [handleChange(key, value)]: the argument passed to [onChange], that
    is [{ ...filters, [key]: value }]. *)
Definition handleChange (key : FilterKey) (value : Z) (filters : ImageFilters)
  : ImageFilters :=
  match key with
  | Brightness =>
      {| brightness := value; contrast := contrast filters;
         saturation := saturation filters |}
  | Contrast =>
      {| brightness := brightness filters; contrast := value;
         saturation := saturation filters |}
  | Saturation =>
      {| brightness := brightness filters; contrast := contrast filters;
         saturation := value |}
  end.

(** No press of the reset button among the events. *)
Definition no_reset (evs : list Event) : Prop :=
  Forall (fun ev => ev <> ClickReset) evs.

(** The object URLs created by the drops among [evs] that pass the
    checks of [onDrop], oldest first. *)
Definition accepted_urls (evs : list Event) : list string :=
  flat_map (fun ev =>
              match ev with
              | Drop (file :: _) objectUrl =>
                  match onDrop_validate file with
                  | None => [objectUrl]
                  | Some _ => []
                  end
              | _ => []
              end) evs.

(** With a stable setter every callback captured [image = null]. *)
Definition no_capture (w : World) : Prop :=
  setHistory_stable (env w) = true /\
  Forall (fun at_ => closure_image at_ = None) (attempts w).


(** * Properties *)

Open Scope list_scope.

(** ** The string primitives on sample inputs *)

Example parseInt_2 : Js.parseInt "2" = Some 2%Z. Proof. reflexivity. Qed.
Example parseInt_7 : Js.parseInt "7" = Some 7%Z. Proof. reflexivity. Qed.
Example parseInt_abc : Js.parseInt "abc" = None. Proof. reflexivity. Qed.
Example parseInt_neg : Js.parseInt "-3" = Some (-3)%Z. Proof. reflexivity. Qed.
Example parseInt_2abc : Js.parseInt "2abc" = Some 2%Z. Proof. reflexivity. Qed.
Example parseInt_hex : Js.parseInt "0x1f" = Some 31%Z. Proof. reflexivity. Qed.
Example parseInt_0x : Js.parseInt "0x" = None. Proof. reflexivity. Qed.
Example trim_ex : Js.trim "  2 Moderate DR
" = "2 Moderate DR". Proof. reflexivity. Qed.
Example includes_ex : Js.includes "request timeout reached" "timeout" = true.
Proof. reflexivity. Qed.

(** ** The classifier client on sample inputs *)

Example match_data_url_png :
  match_data_url data0 = Some ("image/png", "iVBORw0KGgo=").
Proof. reflexivity. Qed.

Example match_data_url_svg :
  match_data_url "data:image/svg+xml;base64,PHN2Zz4=" =
    Some ("image/svg+xml", "PHN2Zz4=").
Proof. reflexivity. Qed.

Example match_data_url_no_payload :
  match_data_url "data:image/png;base64," = None.
Proof. reflexivity. Qed.

Example match_data_url_charset :
  match_data_url "data:text/plain;charset=utf-8;base64,QQ==" = None.
Proof. reflexivity. Qed.

Example analyzeImage_begin_svg :
  analyzeImage_begin true "data:image/svg+xml;base64,PHN2Zz4=" =
    inl (Js.ErrorObj MSG_UNSUPPORTED_FORMAT).
Proof. reflexivity. Qed.

Example analyzeImage_begin_no_key :
  analyzeImage_begin false data0 = inl (Js.ErrorObj MSG_NO_API_KEY).
Proof. reflexivity. Qed.

Example analyzeImage_catch_quota :
  analyzeImage_catch
    (Js.ErrorObj "[429 Too Many Requests] RESOURCE_EXHAUSTED: quota") =
    Js.ErrorObj MSG_QUOTA.
Proof. reflexivity. Qed.

Example analyzeImage_catch_timed_out :
  analyzeImage_catch (Js.ErrorObj MSG_TIMED_OUT) = Js.ErrorObj MSG_TIMED_OUT.
Proof. reflexivity. Qed.

Example analyzeImage_settle_2 :
  analyzeImage_settle (RaceResolved (Text "2")) = inr 2%Z.
Proof. reflexivity. Qed.

Example analyzeImage_settle_hex :
  analyzeImage_settle (RaceResolved (Text "0x3")) = inr 3%Z.
Proof. reflexivity. Qed.

Example analyzeImage_settle_7 :
  analyzeImage_settle (RaceResolved (Text "7")) =
    inl (Js.ErrorObj MSG_INVALID_RESPONSE).
Proof. reflexivity. Qed.

Example success_run :
  (ui <$> run (initial env0 []) success_trace) =
  Some {| image := Some "blob:1"; loading := false;
          prediction := Some result3; error := None; showHistory := false;
          history := [result3]; imageFilters := DEFAULT_IMAGE_FILTERS |}.
Proof. vm_compute. reflexivity. Qed.


(** ** Frame properties of the handlers *)

Arguments set_phase : simpl never.

Lemma set_phase_frame a p w :
  ui (set_phase a p w) = ui w /\
  objectUrls (set_phase a p w) = objectUrls w /\
  requests (set_phase a p w) = requests w /\
  clock (set_phase a p w) = clock w /\
  env (set_phase a p w) = env w.
Proof. unfold set_phase. destruct (attempts w !! a); repeat split. Qed.

Lemma set_phase_ui a p w : ui (set_phase a p w) = ui w.
Proof. apply set_phase_frame. Qed.

Lemma set_phase_clock a p w : clock (set_phase a p w) = clock w.
Proof. apply set_phase_frame. Qed.

Lemma set_phase_length a p w :
  length (attempts (set_phase a p w)) = length (attempts w).
Proof.
  unfold set_phase. destruct (attempts w !! a); [|reflexivity].
  simpl. apply length_insert.
Qed.

Lemma phase_of_set_phase a p w at_ :
  attempts w !! a = Some at_ ->
  attempts (set_phase a p w) !! a =
    Some {| closure_image := closure_image at_; phase := p |}.
Proof.
  intros H. unfold set_phase. rewrite H. simpl.
  apply list_lookup_insert_eq. eapply lookup_lt_Some, H.
Qed.

Lemma phase_of_set_phase_ne a b p w :
  a <> b -> attempts (set_phase a p w) !! b = attempts w !! b.
Proof.
  intros H. unfold set_phase. destruct (attempts w !! a); [|reflexivity].
  simpl. by apply list_lookup_insert_ne.
Qed.

Lemma onDrop_catch_frame c err w :
  history (ui (onDrop_catch c err w)) = history (ui w) /\
  prediction (ui (onDrop_catch c err w)) = prediction (ui w) /\
  requests (onDrop_catch c err w) = requests w /\
  attempts (onDrop_catch c err w) = attempts w /\
  clock (onDrop_catch c err w) = clock w /\
  env (onDrop_catch c err w) = env w /\
  loading (ui (onDrop_catch c err w)) = false.
Proof.
  unfold onDrop_catch.
  destruct c as [u|]; simpl; [destruct (Js.is_empty u)|]; repeat split.
Qed.

Lemma onDrop_catch_error c m w :
  error (ui (onDrop_catch c (Js.ErrorObj m) w)) = Some m.
Proof.
  unfold onDrop_catch.
  destruct c as [u|]; simpl; [destruct (Js.is_empty u)|]; reflexivity.
Qed.

Lemma onDrop_catch_lifecycle c m w :
  lifecycle (ui (onDrop_catch c (Js.ErrorObj m) w)) = Error m.
Proof.
  unfold lifecycle.
  destruct (onDrop_catch_frame c (Js.ErrorObj m) w) as (_ & _ & _ & _ & _ & _ & ->).
  by rewrite onDrop_catch_error.
Qed.

(** [analyzeImage] only ever throws [Error] objects. *)
Lemma analyzeImage_catch_error err : exists m, analyzeImage_catch err = Js.ErrorObj m.
Proof.
  destruct err as [m|]; simpl; [|eauto].
  repeat match goal with |- context [if ?b then _ else _] => destruct b end; eauto.
Qed.

Lemma analyzeImage_settle_error o err :
  analyzeImage_settle o = inl err -> exists m, err = Js.ErrorObj m.
Proof.
  unfold analyzeImage_settle. intros H.
  destruct o as [[|e|raw]|e].
  - injection H as <-. eauto.
  - injection H as <-. apply analyzeImage_catch_error.
  - destruct (Js.parseInt (Js.trim raw)) as [n|].
    + destruct ((n <? 0)%Z || (n >? 4)%Z); [|discriminate].
      injection H as <-. eauto.
    + injection H as <-. eauto.
  - injection H as <-. apply analyzeImage_catch_error.
Qed.

Lemma race_settled_cases c d o u w :
  (exists m, analyzeImage_settle o = inl (Js.ErrorObj m) /\
             race_settled c d o u w = onDrop_catch c (Js.ErrorObj m) w) \/
  (exists lvl, analyzeImage_settle o = inr lvl /\
               race_settled c d o u w =
                 onDrop_success (processImage_result u (clock w) d lvl) w).
Proof.
  unfold race_settled.
  destruct (analyzeImage_settle o) as [err|lvl] eqn:E.
  - destruct (analyzeImage_settle_error _ _ E) as [m ->]. left; eauto.
  - right; eauto.
Qed.

Lemma race_settled_change a p c d o u w :
  ui_change w (race_settled c d o u (set_phase a p w)).
Proof.
  destruct (race_settled_cases c d o u (set_phase a p w))
    as [(m & _ & ->)|(lvl & E & ->)].
  - destruct (onDrop_catch_frame c (Js.ErrorObj m) (set_phase a p w))
      as (Hh & Hp & _).
    apply change_none; rewrite ?Hh, ?Hp, set_phase_ui; auto.
  - apply (change_add _ _ o lvl u d E); 
      simpl; rewrite ?set_phase_ui, ?set_phase_clock; reflexivity.
Qed.

Lemma catch_after_set_phase_change a p c err w :
  ui_change w (onDrop_catch c err (set_phase a p w)).
Proof.
  destruct (onDrop_catch_frame c err (set_phase a p w)) as (Hh & Hp & _).
  apply change_none; rewrite ?Hh, ?Hp, set_phase_ui; auto.
Qed.

Lemma reader_onload_change a c result w : ui_change w (reader_onload a c result w).
Proof.
  unfold reader_onload.
  destruct result as [imageData|];
    [destruct (Js.is_empty imageData);
     [|destruct (analyzeImage_begin _ _)]|];
    try apply catch_after_set_phase_change.
  apply change_none; simpl; rewrite set_phase_ui; auto.
Qed.

Lemma onDrop_change files url w : ui_change w (onDrop files url w).
Proof.
  unfold onDrop. destruct files as [|file ?]; [apply change_none; auto|].
  destruct (onDrop_validate file).
  - destruct (onDrop_catch_frame (onDrop_image w) t w) as (Hh & Hp & _).
    apply change_none; rewrite ?Hh, ?Hp; auto.
  - apply change_none; simpl; auto.
Qed.

(** Every step changes the history and the current result in one of the
    four ways of [ui_change]. *)
Lemma step_ui_change w ev w' : step w ev = Some w' -> ui_change w w'.
Proof.
  destruct ev; simpl; unfold network_settles, timer_fires; intros H;
    repeat match type of H with
           | context [match ?x with _ => _ end] => destruct x eqn:?
           end;
    try discriminate; injection H as <-;
    try apply race_settled_change;
    try apply reader_onload_change;
    try apply catch_after_set_phase_change;
    try apply onDrop_change;
    try (apply change_none; simpl; rewrite ?set_phase_ui; auto; fail).
  - unfold resetAnalysis.
    destruct (truthy (image (ui w))), (image (ui w));
      apply change_none; simpl; auto.
  - apply (change_delete _ _ i); reflexivity.
  - eapply change_select; eauto.
Qed.

Lemma onDrop_clock files url w : clock (onDrop files url w) = clock w.
Proof.
  unfold onDrop. destruct files as [|file ?]; [reflexivity|].
  destruct (onDrop_validate file); [|reflexivity].
  apply onDrop_catch_frame.
Qed.

Lemma race_settled_clock c d o u w : clock (race_settled c d o u w) = clock w.
Proof.
  destruct (race_settled_cases c d o u w) as [(m & _ & ->)|(lvl & _ & ->)];
    [apply onDrop_catch_frame|reflexivity].
Qed.

Lemma reader_onload_clock a c result w :
  clock (reader_onload a c result w) = clock w.
Proof.
  unfold reader_onload.
  assert (forall err, clock (onDrop_catch c err (set_phase a Over w)) = clock w)
    as Hc.
  { intros err.
    destruct (onDrop_catch_frame c err (set_phase a Over w))
      as (_ & _ & _ & _ & -> & _).
    apply set_phase_clock. }
  destruct result as [imageData|];
    [destruct (Js.is_empty imageData);
     [|destruct (analyzeImage_begin _ _)]|];
    try apply Hc.
  simpl. apply set_phase_clock.
Qed.

(** The clock never runs backwards. *)
Lemma step_clock w ev w' : step w ev = Some w' -> (clock w <= clock w')%Z.
Proof.
  destruct ev; simpl; unfold network_settles, timer_fires, reader_onerror;
    intros H;
    repeat match type of H with
           | context [match ?x with _ => _ end] => destruct x eqn:?
           end;
    try discriminate; injection H as <-;
    rewrite ?onDrop_clock, ?race_settled_clock, ?reader_onload_clock,
      ?set_phase_clock;
    try reflexivity.
  - destruct (onDrop_catch_frame (closure_image a0) (Js.ErrorObj MSG_READ_ERROR)
                (set_phase a Over w)) as (_ & _ & _ & _ & -> & _).
    rewrite set_phase_clock. reflexivity.
  - simpl. apply Z.leb_le in Heqb. lia.
  - unfold resetAnalysis.
    destruct (truthy (image (ui w))), (image (ui w)); reflexivity.
Qed.

Lemma run_clock evs : forall w w', run w evs = Some w' -> (clock w <= clock w')%Z.
Proof.
  induction evs as [|ev evs IH]; simpl; intros w w' H.
  - injection H as <-. reflexivity.
  - destruct (step w ev) as [w1|] eqn:E; [|discriminate].
    apply step_clock in E. apply IH in H. lia.
Qed.

(** ** The history cache *)

Lemma history_add_length r prev : length (history_add r prev) <= 10.
Proof. unfold history_add. rewrite length_take. lia. Qed.

Lemma history_add_cons r prev : history_add r prev = r :: take 9 prev.
Proof. reflexivity. Qed.

Lemma history_add_full r prev :
  length prev = 10 ->
  exists kept oldest, prev = kept ++ [oldest] /\ history_add r prev = r :: kept.
Proof.
  intros Hlen. rewrite history_add_cons.
  exists (take 9 prev).
  destruct (drop 9 prev) as [|oldest rest] eqn:Hd.
  - apply (f_equal length) in Hd. rewrite length_drop in Hd. simpl in Hd. lia.
  - exists oldest. split; [|reflexivity].
    assert (rest = []) as ->.
    { apply (f_equal length) in Hd. rewrite length_drop in Hd. simpl in Hd.
      destruct rest; [reflexivity|simpl in Hd; lia]. }
    rewrite <- Hd. symmetry. apply take_drop.
Qed.

Lemma history_delete_length i prev :
  length (history_delete i prev) <= length prev.
Proof. unfold history_delete. apply List.filter_length_le. Qed.

Lemma history_delete_absent i prev :
  i ∉ map id prev -> history_delete i prev = prev.
Proof.
  unfold history_delete. induction prev as [|x t IH]; simpl; intros Hn.
  - reflexivity.
  - apply not_elem_of_cons in Hn as [Hx Ht].
    destruct (String.eqb_spec (id x) i) as [Heq|_]; [congruence|].
    simpl. f_equal. apply IH, Ht.
Qed.

Lemma history_delete_present i prev :
  NoDup (map id prev) -> i ∈ map id prev ->
  exists before x after,
    prev = before ++ x :: after /\ id x = i /\
    history_delete i prev = before ++ after.
Proof.
  induction prev as [|y t IH]; simpl; intros Hnd Hin.
  - by apply elem_of_nil in Hin.
  - apply NoDup_cons in Hnd as [Hy Hnd].
    unfold history_delete. simpl.
    destruct (String.eqb_spec (id y) i) as [Heq|Hne]; simpl.
    + exists [], y, t. repeat split; [exact Heq|].
      apply history_delete_absent. by rewrite <- Heq.
    + apply elem_of_cons in Hin as [Hin|Hin]; [congruence|].
      destruct (IH Hnd Hin) as (before & x & after & -> & Hx & Hdel).
      exists (y :: before), x, after. repeat split; [exact Hx|].
      simpl. f_equal. exact Hdel.
Qed.

Lemma step_history_length w ev w' :
  length (history (ui w)) <= 10 -> step w ev = Some w' ->
  length (history (ui w')) <= 10.
Proof.
  intros Hlen Hstep.
  destruct (step_ui_change _ _ _ Hstep) as [-> _| ? ? ? ? _ -> _ | i -> _ | ? ? _ -> _].
  - exact Hlen.
  - apply history_add_length.
  - pose proof (history_delete_length i (history (ui w))). lia.
  - exact Hlen.
Qed.

Lemma run_history_length evs : forall w w',
  length (history (ui w)) <= 10 -> run w evs = Some w' ->
  length (history (ui w')) <= 10.
Proof.
  induction evs as [|ev evs IH]; simpl; intros w w' Hlen H.
  - by injection H as <-.
  - destruct (step w ev) as [w1|] eqn:E; [|discriminate].
    eapply IH; [|exact H]. eapply step_history_length; eauto.
Qed.

(** ** Results carry the table description *)

Lemma analyzeImage_settle_range o lvl :
  analyzeImage_settle o = inr lvl -> (0 <= lvl <= 4)%Z.
Proof.
  unfold analyzeImage_settle. intros H.
  destruct o as [[|e|raw]|e]; try discriminate.
  destruct (Js.parseInt (Js.trim raw)) as [n|]; [|discriminate].
  destruct ((n <? 0)%Z || (n >? 4)%Z) eqn:E; [discriminate|].
  injection H as <-. apply orb_false_iff in E as [E1 E2].
  apply Z.ltb_ge in E1. rewrite Z.gtb_ltb in E2. apply Z.ltb_ge in E2. lia.
Qed.

Lemma DR_DESCRIPTIONS_defined lvl :
  (0 <= lvl <= 4)%Z -> is_Some (DR_DESCRIPTIONS lvl).
Proof.
  intros H.
  assert (lvl = 0 \/ lvl = 1 \/ lvl = 2 \/ lvl = 3 \/ lvl = 4)%Z
    as [->|[->|[->|[->| ->]]]] by lia; eexists; reflexivity.
Qed.

Lemma processImage_result_ok o lvl uuid now imageData :
  analyzeImage_settle o = inr lvl ->
  result_ok (processImage_result uuid now imageData lvl).
Proof. intros H. split; [apply (analyzeImage_settle_range o), H|reflexivity]. Qed.

Lemma step_results_ok w ev w' :
  results_ok w -> step w ev = Some w' -> results_ok w'.
Proof.
  intros [Hh Hp] Hstep. unfold results_ok.
  destruct (step_ui_change _ _ _ Hstep)
    as [-> [-> | ->] | o lvl u d E -> -> | i -> -> | n r Hn -> ->].
  - auto.
  - split; [exact Hh|discriminate].
  - pose proof (processImage_result_ok o lvl u (clock w) d E) as Hr.
    split.
    + unfold history_add. apply Forall_take. by constructor.
    + intros r [= <-]. exact Hr.
  - split; [|exact Hp].
    unfold history_delete. apply Forall_forall. intros x Hx.
    apply list_elem_of_In, List.filter_In in Hx as [Hx _].
    eapply Forall_forall in Hh; [exact Hh|]. by apply list_elem_of_In.
  - split; [exact Hh|]. intros r' [= <-].
    eapply Forall_lookup_1; eauto.
Qed.

Lemma run_results_ok evs : forall w w',
  results_ok w -> run w evs = Some w' -> results_ok w'.
Proof.
  induction evs as [|ev evs IH]; simpl; intros w w' Hok H.
  - by injection H as <-.
  - destruct (step w ev) as [w1|] eqn:E; [|discriminate].
    eapply IH; [|exact H]. eapply step_results_ok; eauto.
Qed.

(** ** Results and history *)

(** C1.  Every result the page ever holds, in the history or as the
    current prediction, has a level among 0, 1, 2, 3, 4 and carries as
    description exactly the [DR_DESCRIPTIONS] entry of that level,
    provided the history read from storage at start-up was of that kind
    (it is when it was written by this page, or empty). *)
Theorem results_carry_table_description
    (e : Env) (stored : list AnalysisResult) (evs : list Event)
    (w : World) (r : AnalysisResult) :
  Forall result_ok stored ->
  run (initial e stored) evs = Some w ->
  r ∈ history (ui w) \/ prediction (ui w) = Some r ->
  (level r = 0 \/ level r = 1 \/ level r = 2 \/ level r = 3 \/ level r = 4)%Z /\
  description r = DR_DESCRIPTIONS (level r) /\
  is_Some (description r).
Proof.
  intros Hstored Hrun Hr.
  assert (results_ok (initial e stored)) as H0.
  { split; [exact Hstored|discriminate]. }
  destruct (run_results_ok _ _ _ H0 Hrun) as [Hh Hp].
  assert (result_ok r) as [Hrange Hdesc].
  { destruct Hr as [Hr|Hr]; [|by apply Hp].
    eapply Forall_forall in Hh; eauto. }
  repeat split; [lia|exact Hdesc|].
  rewrite Hdesc. by apply DR_DESCRIPTIONS_defined.
Qed.

Lemma results_carry_table_description_witness :
  (level result3 = 0 \/ level result3 = 1 \/ level result3 = 2 \/
   level result3 = 3 \/ level result3 = 4)%Z /\
  description result3 = DR_DESCRIPTIONS (level result3) /\
  is_Some (description result3).
Proof.
  eapply (results_carry_table_description env0 [] success_trace _ result3).
  - constructor.
  - reflexivity.
  - right. reflexivity.
Defined.

(** C2.  The history never holds more than 10 entries, whatever happens
    to the page (starting from a stored history of at most 10); adding
    puts the new result first, keeps at most 10, and, when 10 entries
    were held, drops exactly the last (oldest) one. *)
Theorem history_bounded_newest_first
    (e : Env) (stored : list AnalysisResult) (evs : list Event) (w : World)
    (r : AnalysisResult) (prev : list AnalysisResult) (i : string) :
  length stored <= 10 ->
  run (initial e stored) evs = Some w ->
  length (history (ui w)) <= 10 /\
  length (history (ui (deleteFromHistory i w))) <= 10 /\
  history (ui (onDrop_success r w)) = history_add r (history (ui w)) /\
  length (history_add r prev) <= 10 /\
  history_add r prev = r :: take 9 prev /\
  (length prev = 10 ->
   exists kept oldest,
     prev = kept ++ [oldest] /\ history_add r prev = r :: kept).
Proof.
  intros Hstored Hrun.
  assert (length (history (ui w)) <= 10) as Hw
    by (eapply run_history_length; [|exact Hrun]; exact Hstored).
  repeat split.
  - exact Hw.
  - simpl. pose proof (history_delete_length i (history (ui w))). lia.
  - apply history_add_length.
  - apply history_add_full.
Qed.

Lemma history_bounded_newest_first_witness :
  exists kept oldest,
    ten_entries = kept ++ [oldest] /\
    history_add result3 ten_entries = result3 :: kept.
Proof.
  refine (match history_bounded_newest_first env0 [] success_trace _
                  result3 ten_entries "a" _ _ with
          | conj _ (conj _ (conj _ (conj _ (conj _ H)))) => H _
          end).
  - simpl. lia.
  - reflexivity.
  - reflexivity.
Defined.

(** C9.  Deleting an id that no entry has leaves the history as it was;
    deleting an id that one entry has, ids being distinct, removes that
    one entry and keeps the others in their order. *)
Theorem delete_removes_exactly_one (w : World) (i : string) :
  (i ∉ map id (history (ui w)) ->
   history (ui (deleteFromHistory i w)) = history (ui w)) /\
  (NoDup (map id (history (ui w))) ->
   i ∈ map id (history (ui w)) ->
   exists before x after,
     history (ui w) = before ++ x :: after /\ id x = i /\
     history (ui (deleteFromHistory i w)) = before ++ after /\
     S (length (history (ui (deleteFromHistory i w)))) =
       length (history (ui w))).
Proof.
  split.
  - apply history_delete_absent.
  - intros Hnd Hin.
    destruct (history_delete_present _ _ Hnd Hin)
      as (before & x & after & Hh & Hx & Hd).
    exists before, x, after. simpl. rewrite Hd, Hh.
    repeat split; [exact Hx|].
    rewrite !length_app. simpl. lia.
Qed.

Lemma delete_removes_exactly_one_witness :
  history (ui (deleteFromHistory "zz" (initial env0 ten_entries))) = ten_entries /\
  exists before x after,
    ten_entries = before ++ x :: after /\ id x = "c" /\
    history (ui (deleteFromHistory "c" (initial env0 ten_entries))) =
      before ++ after /\
    S (length (history (ui (deleteFromHistory "c" (initial env0 ten_entries)))))
      = length ten_entries.
Proof.
  split.
  - apply (delete_removes_exactly_one (initial env0 ten_entries) "zz").
    compute_done.
  - apply (delete_removes_exactly_one (initial env0 ten_entries) "c");
      compute_done.
Defined.

(** ** Invalid classifier responses *)

Lemma analyzeImage_settle_invalid raw :
  Js.parseInt (Js.trim raw) = None \/
  (exists n, Js.parseInt (Js.trim raw) = Some n /\ (n < 0 \/ 4 < n)%Z) ->
  analyzeImage_settle (RaceResolved (Text raw)) =
    inl (Js.ErrorObj MSG_INVALID_RESPONSE).
Proof.
  unfold analyzeImage_settle. intros [->|(n & -> & Hn)]; [reflexivity|].
  assert ((n <? 0)%Z || (n >? 4)%Z = true) as ->; [|reflexivity].
  apply orb_true_iff. rewrite Z.gtb_ltb, !Z.ltb_lt. exact Hn.
Qed.

(** What a settling network call does to an attempt whose race is
    pending. *)
Lemma network_settles_racing w a at_ imageData deadline o uuid :
  attempts w !! a = Some at_ -> phase at_ = Racing imageData deadline ->
  network_settles a o uuid w =
    Some (race_settled (closure_image at_) imageData o uuid
            (set_phase a (Answered deadline) w)).
Proof. intros H1 H2. unfold network_settles. by rewrite H1, H2. Qed.

(** C3.  When the trimmed text of the response does not parse as an
    integer, or parses to one below 0 or above 4, the attempt fails with
    the invalid-response error and the history is as it was. *)
Theorem invalid_response_rejected
    (w : World) (a : nat) (at_ : Attempt) (imageData : string)
    (deadline : Z) (raw uuid : string) :
  attempts w !! a = Some at_ ->
  phase at_ = Racing imageData deadline ->
  Js.parseInt (Js.trim raw) = None \/
  (exists n, Js.parseInt (Js.trim raw) = Some n /\ (n < 0 \/ 4 < n)%Z) ->
  analyzeImage_settle (RaceResolved (Text raw)) =
    inl (Js.ErrorObj MSG_INVALID_RESPONSE) /\
  exists w', step w (ModelResolved a (Text raw) uuid) = Some w' /\
             lifecycle (ui w') = Error MSG_INVALID_RESPONSE /\
             error (ui w') = Some MSG_INVALID_RESPONSE /\
             history (ui w') = history (ui w) /\
             prediction (ui w') = prediction (ui w).
Proof.
  intros Ha Hp Hraw.
  pose proof (analyzeImage_settle_invalid raw Hraw) as Hs.
  split; [exact Hs|].
  eexists. split.
  { simpl. apply (network_settles_racing _ _ _ _ _ _ _ Ha Hp). }
  unfold race_settled. rewrite Hs.
  destruct (onDrop_catch_frame (closure_image at_)
              (Js.ErrorObj MSG_INVALID_RESPONSE)
              (set_phase a (Answered deadline) w)) as (Hh & Hpr & _).
  rewrite onDrop_catch_lifecycle, onDrop_catch_error, Hh, Hpr, set_phase_ui.
  repeat split.
Qed.

Lemma invalid_response_rejected_witness :
  (exists w', step racing_world (ModelResolved 0 (Text "abc") "uuid-1") = Some w' /\
              lifecycle (ui w') = Error MSG_INVALID_RESPONSE /\
              error (ui w') = Some MSG_INVALID_RESPONSE /\
              history (ui w') = history (ui racing_world) /\
              prediction (ui w') = prediction (ui racing_world)) /\
  (exists w', step racing_world (ModelResolved 0 (Text "7") "uuid-1") = Some w' /\
              lifecycle (ui w') = Error MSG_INVALID_RESPONSE /\
              error (ui w') = Some MSG_INVALID_RESPONSE /\
              history (ui w') = history (ui racing_world) /\
              prediction (ui w') = prediction (ui racing_world)).
Proof.
  split.
  - eapply (invalid_response_rejected racing_world 0 _ _ _ "abc" "uuid-1").
    + reflexivity.
    + reflexivity.
    + left. reflexivity.
  - eapply (invalid_response_rejected racing_world 0 _ _ _ "7" "uuid-1").
    + reflexivity.
    + reflexivity.
    + right. exists 7%Z. split; [reflexivity|lia].
Defined.

(** ** Image intake *)

Lemma onDrop_validate_None file :
  onDrop_validate file = None <->
  (file_type file = "image/jpeg" \/ file_type file = "image/png") /\
  (file_size file <= 4 * 1024 * 1024)%Z.
Proof.
  unfold onDrop_validate, Js.array_includes, SUPPORTED_TYPES, maxSize.
  cbn [existsb]. rewrite Z.gtb_ltb.
  destruct (String.eqb_spec (file_type file) "image/jpeg") as [E1|E1];
    destruct (String.eqb_spec (file_type file) "image/png") as [E2|E2];
    cbn [orb negb];
    destruct (Z.ltb_spec (4 * 1024 * 1024) (file_size file));
    split; try discriminate; try tauto; intros [[?|?] ?]; try lia; congruence.
Qed.

Lemma onDrop_validate_Some file err :
  onDrop_validate file = Some err ->
  err = Js.ErrorObj MSG_BAD_TYPE \/ err = Js.ErrorObj MSG_BAD_SIZE.
Proof.
  unfold onDrop_validate.
  destruct (negb _); [intros [= <-]; auto|].
  destruct (_ >? _)%Z; [intros [= <-]; auto|discriminate].
Qed.

(** C6.  A dropped file starts an analysis (the page goes to Loading)
    exactly when its type is [image/jpeg] or [image/png] and its size is
    at most 4 MiB.  Otherwise the page goes to Error with one of the two
    validation messages, no request is sent and no attempt is left
    pending that could send one. *)
Theorem intake_accepts_iff
    (w : World) (file : File) (rest : list File) (objectUrl : string) :
  let w' := onDrop (file :: rest) objectUrl w in
  let valid :=
    (file_type file = "image/jpeg" \/ file_type file = "image/png") /\
    (file_size file <= 4 * 1024 * 1024)%Z in
  step w (Drop (file :: rest) objectUrl) = Some w' /\
  (lifecycle (ui w') = Loading <-> valid) /\
  (valid ->
   image (ui w') = Some objectUrl /\
   attempts w' =
     attempts w ++ [{| closure_image := onDrop_image w; phase := Reading |}] /\
   requests w' = requests w) /\
  (~ valid ->
   exists m, (m = MSG_BAD_TYPE \/ m = MSG_BAD_SIZE) /\
             (file_type file <> "image/jpeg" -> file_type file <> "image/png" ->
              m = MSG_BAD_TYPE) /\
             lifecycle (ui w') = Error m /\
             error (ui w') = Some m /\
             requests w' = requests w /\
             attempts w' = attempts w).
Proof.
  intros w' valid. subst w'. split; [reflexivity|].
  pose proof (onDrop_validate_None file) as Hv. fold valid in Hv.
  unfold onDrop. destruct (onDrop_validate file) as [err|] eqn:E.
  - assert (~ valid) as Hn by (intros H; apply Hv in H; discriminate).
    assert (exists m, err = Js.ErrorObj m /\
                      (m = MSG_BAD_TYPE \/ m = MSG_BAD_SIZE) /\
                      (file_type file <> "image/jpeg" ->
                       file_type file <> "image/png" -> m = MSG_BAD_TYPE))
      as (m & -> & Hm & Hty).
    { revert E. unfold onDrop_validate, Js.array_includes, SUPPORTED_TYPES.
      cbn [existsb].
      destruct (String.eqb_spec (file_type file) "image/jpeg") as [E1|E1];
        destruct (String.eqb_spec (file_type file) "image/png") as [E2|E2];
        cbn [orb negb];
        try (intros [= <-]; eexists; repeat split; eauto; fail);
        destruct (_ >? _)%Z; try discriminate;
        intros [= <-]; eexists; repeat split; eauto; congruence. }
    destruct (onDrop_catch_frame (onDrop_image w) (Js.ErrorObj m) w)
      as (_ & _ & Hr & Ha & _ & _ & Hl).
    split; [|split].
    + rewrite onDrop_catch_lifecycle. split; [discriminate|tauto].
    + tauto.
    + intros _. exists m.
      rewrite onDrop_catch_lifecycle, onDrop_catch_error, Hr, Ha. tauto.
  - assert valid as Hval by (by apply Hv).
    split; [|split].
    + split; [auto|reflexivity].
    + intros _. repeat split.
    + tauto.
Qed.

Lemma intake_accepts_iff_witness :
  lifecycle (ui (onDrop [{| file_type := "image/png";
                            file_size := 4 * 1024 * 1024 |}] "blob:1"
                   (initial env0 []))) = Loading /\
  lifecycle (ui (onDrop [{| file_type := "image/png";
                            file_size := 4 * 1024 * 1024 + 1 |}] "blob:1"
                   (initial env0 []))) <> Loading /\
  exists m, (m = MSG_BAD_TYPE \/ m = MSG_BAD_SIZE) /\
    ("image/gif" <> "image/jpeg" -> "image/gif" <> "image/png" ->
     m = MSG_BAD_TYPE) /\
    lifecycle (ui (onDrop [{| file_type := "image/gif"; file_size := 100 |}]
                     "blob:1" (initial env0 []))) = Error m /\
    error (ui (onDrop [{| file_type := "image/gif"; file_size := 100 |}]
                 "blob:1" (initial env0 []))) = Some m /\
    requests (onDrop [{| file_type := "image/gif"; file_size := 100 |}]
                "blob:1" (initial env0 [])) = [] /\
    attempts (onDrop [{| file_type := "image/gif"; file_size := 100 |}]
                "blob:1" (initial env0 [])) = [].
Proof.
  split; [|split].
  - apply (intake_accepts_iff (initial env0 [])
             {| file_type := "image/png"; file_size := 4 * 1024 * 1024 |}
             [] "blob:1").
    simpl. split; [right; reflexivity|lia].
  - intros H.
    apply (intake_accepts_iff (initial env0 [])
             {| file_type := "image/png"; file_size := 4 * 1024 * 1024 + 1 |}
             [] "blob:1") in H.
    simpl in H. lia.
  - apply (intake_accepts_iff (initial env0 [])
             {| file_type := "image/gif"; file_size := 100 |} [] "blob:1").
    simpl. intros [[H|H] _]; discriminate H.
Defined.

(** ** Lenient parsing of the response *)

Lemma between_spec lo hi c :
  Js.between lo hi c = true <-> (lo <= Js.code c <= hi)%Z.
Proof. unfold Js.between. rewrite andb_true_iff, !Z.leb_le. tauto. Qed.

Lemma between_false lo hi c :
  Js.between lo hi c = false <-> (Js.code c < lo \/ hi < Js.code c)%Z.
Proof.
  unfold Js.between. rewrite andb_false_iff, !Z.leb_gt. tauto.
Qed.

Lemma eqb_code_ne c k : Js.code c <> Js.code k -> Ascii.eqb c k = false.
Proof. intros H. destruct (Ascii.eqb_spec c k); congruence. Qed.

Lemma digit_val_10_digit c :
  Js.between 48 57 c = true -> Js.digit_val 10 c = Some (Js.code c - 48)%Z.
Proof.
  intros H. unfold Js.digit_val. rewrite H.
  apply between_spec in H.
  destruct (Z.ltb_spec (Js.code c - 48) 10); [reflexivity|lia].
Qed.

Lemma digit_val_10_other c :
  Js.between 48 57 c = false -> Js.digit_val 10 c = None.
Proof.
  intros H. unfold Js.digit_val. rewrite H.
  destruct (Js.between 97 122 c) eqn:E1.
  - apply between_spec in E1.
    destruct (Z.ltb_spec (Js.code c - 87) 10); [lia|reflexivity].
  - destruct (Js.between 65 90 c) eqn:E2; [|reflexivity].
    apply between_spec in E2.
    destruct (Z.ltb_spec (Js.code c - 55) 10); [lia|reflexivity].
Qed.

(** [parseInt] on a digit 0-4 followed by a non-digit, outside the
    hexadecimal prefix. *)
Lemma parseInt_leading_digit d c rest :
  Js.between 48 52 d = true ->
  Js.between 48 57 c = false ->
  ~ (d = "0"%char /\ (c = "x"%char \/ c = "X"%char)) ->
  Js.parseInt (String d (String c rest)) = Some (Js.code d - 48)%Z.
Proof.
  intros Hd Hc Hhex. apply between_spec in Hd.
  assert (Js.between 48 57 d = true) as Hd' by (apply between_spec; lia).
  unfold Js.parseInt. cbn [Js.trimStart].
  assert (Js.is_white_space d = false) as ->.
  { unfold Js.is_white_space.
    rewrite !orb_false_iff, between_false, !Z.eqb_neq. lia. }
  rewrite (eqb_code_ne d "-"), (eqb_code_ne d "+")
    by (change (Js.code "-") with 45%Z; change (Js.code "+") with 43%Z; lia).
  assert (Ascii.eqb d "0" && (Ascii.eqb c "x" || Ascii.eqb c "X") = false)
    as ->.
  { destruct (Ascii.eqb_spec d "0"), (Ascii.eqb_spec c "x"),
      (Ascii.eqb_spec c "X"); simpl; tauto. }
  cbn [Js.digits_prefix].
  rewrite (digit_val_10_digit d Hd'), (digit_val_10_other c Hc).
  unfold Js.digits_value. simpl fold_left. f_equal. lia.
Qed.

(** C10, read literally, fails: the trimmed response ["0x"] begins with
    the digit 0 followed by a non-digit, yet [parseInt] takes [0x] for a
    hexadecimal prefix, finds no digit after it and gives [NaN]. *)
Lemma leading_digit_accepted_fails : ~ leading_digit_accepted.
Proof.
  intros H.
  specialize (H "0x" "0"%char "x"%char EmptyString eq_refl eq_refl eq_refl).
  vm_compute in H. discriminate H.
Qed.

(** C10, amended.  When the trimmed response begins with a digit 0-4
    followed by a non-digit, and does not begin with [0x] or [0X], the
    analysis succeeds with that digit as level: the result becomes the
    current prediction and is put in front of the history. *)
Theorem leading_digit_accepted_unless_hex
    (w : World) (a : nat) (at_ : Attempt) (imageData : string)
    (deadline : Z) (raw uuid : string) (d c : ascii) (rest : string) :
  attempts w !! a = Some at_ ->
  phase at_ = Racing imageData deadline ->
  Js.trim raw = String d (String c rest) ->
  Js.between 48 52 d = true ->
  Js.between 48 57 c = false ->
  ~ (d = "0"%char /\ (c = "x"%char \/ c = "X"%char)) ->
  let result :=
    processImage_result uuid (clock w) imageData (Js.code d - 48)%Z in
  analyzeImage_settle (RaceResolved (Text raw)) = inr (Js.code d - 48)%Z /\
  exists w', step w (ModelResolved a (Text raw) uuid) = Some w' /\
             prediction (ui w') = Some result /\
             history (ui w') = history_add result (history (ui w)) /\
             error (ui w') = error (ui w) /\
             loading (ui w') = false.
Proof.
  intros Ha Hp Htrim Hd Hc Hhex result.
  assert (analyzeImage_settle (RaceResolved (Text raw)) =
            inr (Js.code d - 48)%Z) as Hs.
  { unfold analyzeImage_settle.
    rewrite Htrim, (parseInt_leading_digit d c rest Hd Hc Hhex).
    apply between_spec in Hd.
    destruct (Z.ltb_spec (Js.code d - 48) 0); [lia|].
    rewrite Z.gtb_ltb.
    destruct (Z.ltb_spec 4 (Js.code d - 48)); [lia|reflexivity]. }
  split; [exact Hs|].
  eexists. split.
  { simpl. apply (network_settles_racing _ _ _ _ _ _ _ Ha Hp). }
  unfold race_settled. rewrite Hs. simpl.
  rewrite set_phase_ui, set_phase_clock. repeat split.
Qed.

Lemma leading_digit_accepted_unless_hex_witness :
  analyzeImage_settle (RaceResolved (Text " 2 Moderate DR ")) = inr 2%Z /\
  exists w',
    step racing_world (ModelResolved 0 (Text " 2 Moderate DR ") "uuid-1") =
      Some w' /\
    prediction (ui w') = Some (processImage_result "uuid-1" 0 data0 2) /\
    history (ui w') =
      history_add (processImage_result "uuid-1" 0 data0 2)
        (history (ui racing_world)) /\
    error (ui w') = error (ui racing_world) /\
    loading (ui w') = false.
Proof.
  apply (leading_digit_accepted_unless_hex racing_world 0
           {| closure_image := None; phase := Racing data0 30000 |}
           data0 30000 " 2 Moderate DR " "uuid-1" "2"%char " "%char
           "Moderate DR").
  - reflexivity.
  - reflexivity.
  - reflexivity.
  - reflexivity.
  - reflexivity.
  - intros [H _]. discriminate H.
Defined.

(** ** Selecting a history entry *)

(** C8, read literally, fails: while an upload is being analysed the
    history panel can be opened and an entry selected; [selectFromHistory]
    does not touch [loading], so the page stays in Loading. *)
Lemma select_reaches_success_fails : ~ select_reaches_success.
Proof.
  intros H.
  destruct (H env0 [entry "a" 4]
              [Drop [png100] "blob:1"; ClickToggleHistory]
              _ 0 (entry "a" 4) eq_refl eq_refl)
    as (w' & Hstep & _ & _ & Hlife).
  injection Hstep as <-. vm_compute in Hlife. discriminate Hlife.
Qed.

(** C8, amended.  Selecting a stored entry sends no request and starts no
    attempt; it makes exactly that entry the current prediction, shows its
    image, clears the error and leaves the history and the [loading] flag
    as they were.  The page is therefore in Success with that entry
    whenever it was not loading. *)
Theorem select_loads_stored_result (w : World) (n : nat) (r : AnalysisResult) :
  history (ui w) !! n = Some r ->
  exists w', step w (ClickSelect n) = Some w' /\
             requests w' = requests w /\
             attempts w' = attempts w /\
             prediction (ui w') = Some r /\
             image (ui w') = Some (imageUrl r) /\
             error (ui w') = None /\
             history (ui w') = history (ui w) /\
             loading (ui w') = loading (ui w) /\
             (loading (ui w) = false -> lifecycle (ui w') = Success r).
Proof.
  intros Hn. exists (selectFromHistory r w). simpl. rewrite Hn.
  repeat split. unfold lifecycle. simpl. by intros ->.
Qed.

Lemma select_loads_stored_result_witness :
  exists w', step (initial env0 ten_entries) (ClickSelect 2) = Some w' /\
             requests w' = [] /\
             attempts w' = [] /\
             prediction (ui w') = Some (entry "h" 2) /\
             image (ui w') = Some data0 /\
             error (ui w') = None /\
             history (ui w') = ten_entries /\
             loading (ui w') = false /\
             (false = false -> lifecycle (ui w') = Success (entry "h" 2)).
Proof.
  apply (select_loads_stored_result (initial env0 ten_entries) 2 (entry "h" 2)).
  reflexivity.
Defined.

(** ** Overlapping attempts *)

(** C5, read literally, fails: nothing in [onDrop] tells a superseded
    attempt from the latest one.  After [overlap_trace] the answer to the
    first request sets the prediction, enters the history and clears
    [loading] while the second request is still out. *)
Lemma stale_resolution_ignored_fails : ~ stale_resolution_ignored.
Proof.
  intros H.
  assert (prediction (ui (world_after (overlap_trace ++ [answer_to_first]))) =
            prediction (ui overlap_world) /\
          history (ui (world_after (overlap_trace ++ [answer_to_first]))) =
            history (ui overlap_world)) as [Hp Hh].
  { apply (H env0 [] overlap_trace overlap_world 0 1 answer_to_first).
    - vm_compute. reflexivity.
    - lia.
    - vm_compute. eexists; reflexivity.
    - vm_compute. do 2 eexists; reflexivity.
    - reflexivity.
    - vm_compute. reflexivity. }
  vm_compute in Hp. discriminate Hp.
Qed.

(** C5, amended.  The answer to a pending request is applied to the page
    whatever other attempts exist, newer ones included: a valid level
    makes the new result the current prediction and puts it in front of
    the history, anything else sets the error; either way [loading] is
    cleared. *)
Theorem stale_resolution_applied
    (w : World) (a : nat) (at_ : Attempt) (imageData : string)
    (deadline : Z) (r : GenResult) (uuid : string) :
  attempts w !! a = Some at_ ->
  phase at_ = Racing imageData deadline ->
  exists w', step w (ModelResolved a r uuid) = Some w' /\
    loading (ui w') = false /\
    match analyzeImage_settle (RaceResolved r) with
    | inr lvl =>
        let result := processImage_result uuid (clock w) imageData lvl in
        prediction (ui w') = Some result /\
        history (ui w') = history_add result (history (ui w))
    | inl err =>
        exists m, err = Js.ErrorObj m /\
                  error (ui w') = Some m /\
                  prediction (ui w') = prediction (ui w) /\
                  history (ui w') = history (ui w)
    end.
Proof.
  intros Ha Hp. eexists. split.
  { simpl. apply (network_settles_racing _ _ _ _ _ _ _ Ha Hp). }
  unfold race_settled.
  destruct (analyzeImage_settle (RaceResolved r)) as [err|lvl] eqn:E.
  - destruct (analyzeImage_settle_error _ _ E) as [m ->].
    destruct (onDrop_catch_frame (closure_image at_) (Js.ErrorObj m)
                (set_phase a (Answered deadline) w))
      as (Hh & Hpr & _ & _ & _ & _ & Hl).
    split; [exact Hl|]. exists m.
    rewrite onDrop_catch_error, Hh, Hpr, set_phase_ui. repeat split.
  - simpl. rewrite set_phase_ui, set_phase_clock. repeat split.
Qed.

Lemma stale_resolution_applied_witness :
  exists w', step overlap_world answer_to_first = Some w' /\
    loading (ui w') = false /\
    prediction (ui w') = Some result3 /\
    history (ui w') = history_add result3 (history (ui overlap_world)).
Proof.
  apply (stale_resolution_applied overlap_world 0
           {| closure_image := None; phase := Racing data0 30000 |}
           data0 30000 (Text "3") "uuid-1").
  - vm_compute. reflexivity.
  - reflexivity.
Defined.

(** ** Failure of an attempt *)

(** C7 at a failing input: the first upload of a session, a valid PNG,
    answered with ["abc"].  The page goes to Error with the message of
    the failure, but [image] inside [onDrop] is the value captured by the
    callback ([null] here, under either behaviour of the history setter),
    so the preview set by this attempt stays displayed and its object URL
    is not revoked. *)
Theorem failed_attempt_keeps_preview (e : Env) :
  apiKey e = true ->
  exists w,
    run (initial e [])
      [Drop [png100] "blob:1"; ReaderLoad 0 (Some data0);
       ModelResolved 0 (Text "abc") "uuid-1"] = Some w /\
    lifecycle (ui w) = Error MSG_INVALID_RESPONSE /\
    image (ui w) = Some "blob:1" /\
    objectUrls w = ["blob:1"].
Proof.
  destruct e as [k [|]]; simpl; intros ->; eexists;
    (split; [vm_compute; reflexivity|]); vm_compute; repeat split.
Qed.

Lemma failed_attempt_keeps_preview_witness :
  exists w,
    run (initial env0 [])
      [Drop [png100] "blob:1"; ReaderLoad 0 (Some data0);
       ModelResolved 0 (Text "abc") "uuid-1"] = Some w /\
    lifecycle (ui w) = Error MSG_INVALID_RESPONSE /\
    image (ui w) = Some "blob:1" /\
    objectUrls w = ["blob:1"].
Proof. apply (failed_attempt_keeps_preview env0). reflexivity. Defined.

(** ** The race against the timer *)

Lemma race_settled_attempts c d o u w :
  attempts (race_settled c d o u w) = attempts w.
Proof.
  destruct (race_settled_cases c d o u w) as [(m & _ & ->)|(lvl & _ & ->)];
    [apply onDrop_catch_frame|reflexivity].
Qed.

Lemma onDrop_catch_attempts c err w :
  attempts (onDrop_catch c err w) = attempts w.
Proof. apply onDrop_catch_frame. Qed.

Lemma reader_onload_attempts a c result w :
  exists p,
    (p = Over \/
     exists d, result = Some d /\ p = Racing d (clock w + timeoutMs)%Z) /\
    attempts (reader_onload a c result w) = attempts (set_phase a p w).
Proof.
  unfold reader_onload.
  destruct result as [imageData|];
    [destruct (Js.is_empty imageData);
     [|destruct (analyzeImage_begin _ _)]|];
    try (exists Over; split; [by left|apply onDrop_catch_attempts]).
  eexists. split; [right; eauto|reflexivity].
Qed.

(** What one step does to the list of attempts: nothing, one more at the
    end, or one attempt moved to its next phase. *)
Lemma step_attempts_shape w ev w' :
  step w ev = Some w' ->
  attempts w' = attempts w \/
  (exists x, attempts w' = attempts w ++ [x]) \/
  (exists b at_b p,
     attempts w !! b = Some at_b /\ phase_next (phase at_b) p /\
     attempts w' = attempts (set_phase b p w)).
Proof.
  destruct ev; simpl; unfold network_settles, timer_fires, reader_onerror;
    intros H;
    repeat match type of H with
           | context [match ?x with _ => _ end] => destruct x eqn:?
           end;
    try discriminate; injection H as <-;
    rewrite ?race_settled_attempts, ?onDrop_catch_attempts;
    try (left; reflexivity);
    try (right; right; do 3 eexists;
         split; [eassumption|split; [|reflexivity]];
         match goal with H : phase _ = _ |- _ => rewrite H end;
         constructor).
  - unfold onDrop. destruct acceptedFiles as [|file ?]; [by left|].
    destruct (onDrop_validate file).
    + left. apply onDrop_catch_attempts.
    + right; left. eexists. reflexivity.
  - destruct (reader_onload_attempts a (closure_image a0) result w)
      as (p & Hp & ->).
    right; right. exists a, a0, p. split; [assumption|split; [|reflexivity]].
    rewrite Heqp. destruct Hp as [->|(d & _ & ->)]; constructor.
  - left. unfold resetAnalysis.
    destruct (truthy (image (ui w))), (image (ui w)); reflexivity.
Qed.

Lemma step_attempt w ev w' a at_ :
  step w ev = Some w' -> attempts w !! a = Some at_ ->
  exists at', attempts w' !! a = Some at' /\
              closure_image at' = closure_image at_ /\
              (phase at' = phase at_ \/ phase_next (phase at_) (phase at')).
Proof.
  intros Hstep Ha.
  destruct (step_attempts_shape _ _ _ Hstep)
    as [->|[(x & ->)|(b & at_b & p & Hb & Hnext & ->)]].
  - exists at_. auto.
  - exists at_. split; [|auto]. apply lookup_app_l_Some, Ha.
  - destruct (decide (b = a)) as [->|Hne].
    + rewrite Ha in Hb. injection Hb as <-.
      rewrite (phase_of_set_phase _ _ _ _ Ha). eexists. split; [reflexivity|].
      simpl. auto.
    + rewrite (phase_of_set_phase_ne _ _ _ _ Hne). exists at_. auto.
Qed.

(** Once the timer has settled the race it stays settled. *)
Lemma step_timed_out w ev w' a :
  timed_out a w -> step w ev = Some w' -> timed_out a w'.
Proof.
  unfold timed_out, phase_of. intros Hto Hstep.
  destruct (attempts w !! a) as [at_|] eqn:Ha; [|destruct Hto; discriminate].
  destruct (step_attempt _ _ _ _ _ Hstep Ha) as (at' & -> & _ & Hph).
  simpl in *.
  destruct Hto as [[= Hto]|[= Hto]]; rewrite Hto in Hph;
    destruct Hph as [->|Hn]; auto; inversion Hn; auto.
Qed.

Lemma run_timed_out evs : forall w w' a,
  timed_out a w -> run w evs = Some w' -> timed_out a w'.
Proof.
  induction evs as [|ev evs IH]; simpl; intros w w' a Hto H.
  - by injection H as <-.
  - destruct (step w ev) as [w1|] eqn:E; [|discriminate].
    eapply IH; [|exact H]. eapply step_timed_out; eauto.
Qed.

Lemma reader_onload_racing w0 a at_ result d dl :
  attempts w0 !! a = Some at_ ->
  phase_of a (reader_onload a (closure_image at_) result w0) =
    Some (Racing d dl) ->
  dl = (clock w0 + timeoutMs)%Z.
Proof.
  intros Ha. unfold phase_of.
  destruct (reader_onload_attempts a (closure_image at_) result w0)
    as (p & Hp & ->).
  rewrite (phase_of_set_phase _ _ _ _ Ha). simpl. intros [= ->].
  destruct Hp as [|(d' & _ & [= _ ->])]; [discriminate|reflexivity].
Qed.

Lemma timer_fires_racing w a at_ d dl :
  attempts w !! a = Some at_ -> phase at_ = Racing d dl ->
  timer_fires a w =
    if (dl <=? clock w)%Z
    then Some (onDrop_catch (closure_image at_) (Js.ErrorObj MSG_TIMED_OUT)
                 (set_phase a TimedOut w))
    else None.
Proof. intros Ha Hp. unfold timer_fires. by rewrite Ha, Hp. Qed.

Lemma late_response w a ev w' :
  timed_out a w -> is_response a ev = true -> step w ev = Some w' ->
  ui w' = ui w /\ objectUrls w' = objectUrls w /\ requests w' = requests w.
Proof.
  unfold timed_out, phase_of. intros Hto Hev Hstep.
  assert (exists o u, step w ev = network_settles a o u w) as (o & u & Hns).
  { destruct ev; try discriminate; simpl in Hev;
      apply Nat.eqb_eq in Hev as ->; simpl; eauto. }
  rewrite Hns in Hstep. unfold network_settles in Hstep.
  destruct (attempts w !! a) as [at_|]; [|discriminate].
  simpl in Hto.
  destruct Hto as [[= Hto]|[= Hto]]; rewrite Hto in Hstep; [|discriminate].
  injection Hstep as <-.
  destruct (set_phase_frame a Over w) as (-> & -> & -> & _). repeat split.
Qed.

(** C4.  The request of an attempt is raced against a timer set 30000 ms
    after the request is made.  The timer cannot fire before then and can
    fire from then on while the race is pending.  When it fires first,
    the attempt fails with the time-out message, leaving prediction and
    history alone; an answer (or a failure) of the network call arriving
    at any later time changes nothing in the component state, the object
    URLs or the requests. *)
Theorem timeout_wins_race
    (w0 w1 w2 w3 w4 w5 : World) (a : nat) (result : option string)
    (d : string) (dl : Z) (evs evs' : list Event) (ev : Event) :
  step w0 (ReaderLoad a result) = Some w1 ->
  phase_of a w1 = Some (Racing d dl) ->
  run w1 evs = Some w2 ->
  phase_of a w2 = Some (Racing d dl) ->
  step w2 (TimerFired a) = Some w3 ->
  run w3 evs' = Some w4 ->
  is_response a ev = true ->
  step w4 ev = Some w5 ->
  dl = (clock w0 + 30000)%Z /\
  (clock w0 + 30000 <= clock w2)%Z /\
  (forall w, phase_of a w = Some (Racing d dl) ->
             (is_Some (step w (TimerFired a)) <-> (dl <= clock w)%Z)) /\
  lifecycle (ui w3) = Error MSG_TIMED_OUT /\
  error (ui w3) = Some MSG_TIMED_OUT /\
  prediction (ui w3) = prediction (ui w2) /\
  history (ui w3) = history (ui w2) /\
  ui w5 = ui w4 /\ objectUrls w5 = objectUrls w4 /\ requests w5 = requests w4.
Proof.
  intros Hload Hrace1 Hrun Hrace2 Htimer Hrun' Hev Hlate.
  assert (dl = (clock w0 + 30000)%Z) as Hdl.
  { simpl in Hload.
    destruct (attempts w0 !! a) as [at0|] eqn:Ha0; [|discriminate].
    destruct (phase at0); try discriminate. injection Hload as <-.
    apply (reader_onload_racing _ _ _ _ _ _ Ha0 Hrace1). }
  assert (forall w, phase_of a w = Some (Racing d dl) ->
            exists at_, attempts w !! a = Some at_ /\ phase at_ = Racing d dl)
    as Hat.
  { unfold phase_of. intros w Hw.
    destruct (attempts w !! a) as [at_|]; [|discriminate].
    injection Hw as Hw. eauto. }
  destruct (Hat _ Hrace2) as (at2 & Ha2 & Hp2).
  simpl in Htimer. rewrite (timer_fires_racing _ _ _ _ _ Ha2 Hp2) in Htimer.
  destruct (Z.leb_spec dl (clock w2)) as [Hle|]; [|discriminate].
  injection Htimer as <-.
  destruct (onDrop_catch_frame (closure_image at2) (Js.ErrorObj MSG_TIMED_OUT)
              (set_phase a TimedOut w2)) as (Hh & Hp & _ & Hatt & _).
  assert (timed_out a w4) as Hto.
  { eapply run_timed_out; [|exact Hrun']. left. unfold phase_of.
    rewrite Hatt, (phase_of_set_phase _ _ _ _ Ha2). reflexivity. }
  split; [exact Hdl|]. split; [lia|]. split.
  { intros w Hw. destruct (Hat _ Hw) as (at_ & Ha & Hp').
    simpl. rewrite (timer_fires_racing _ _ _ _ _ Ha Hp').
    destruct (Z.leb_spec dl (clock w)); split; intros H';
      try done; try lia. }
  rewrite onDrop_catch_lifecycle, onDrop_catch_error, Hh, Hp, set_phase_ui.
  repeat split; eapply late_response; eauto.
Qed.

Lemma timeout_wins_race_witness :
  lifecycle (ui (world_after [Drop [png100] "blob:1"; ReaderLoad 0 (Some data0);
                              Tick 30000; TimerFired 0])) =
    Error MSG_TIMED_OUT /\
  ui (world_after (timeout_trace ++ [answer_to_first])) =
    ui (world_after timeout_trace).
Proof.
  pose proof (timeout_wins_race
                (world_after [Drop [png100] "blob:1"])
                racing_world
                (world_after [Drop [png100] "blob:1";
                              ReaderLoad 0 (Some data0); Tick 30000])
                (world_after [Drop [png100] "blob:1";
                              ReaderLoad 0 (Some data0); Tick 30000;
                              TimerFired 0])
                (world_after timeout_trace)
                (world_after (timeout_trace ++ [answer_to_first]))
                0 (Some data0) data0 30000 [Tick 30000] [Tick 5000]
                answer_to_first) as H.
  destruct H as (_ & _ & _ & Hlife & _ & _ & _ & Hui & _).
  - vm_compute. reflexivity.
  - vm_compute. reflexivity.
  - vm_compute. reflexivity.
  - vm_compute. reflexivity.
  - vm_compute. reflexivity.
  - vm_compute. reflexivity.
  - reflexivity.
  - vm_compute. reflexivity.
  - split; [exact Hlife|exact Hui].
Defined.

(** * Further properties of the code *)

(** ** The data-URL pattern of [analyzeImage] *)

Lemma strip_prefix_spec p : forall s r,
  Js.strip_prefix p s = Some r <-> s = p +:+ r.
Proof.
  induction p as [|a p IH]; intros s r; simpl.
  - split; [by intros [= ->]|by intros ->].
  - destruct s as [|b s]; [split; discriminate|].
    destruct (Ascii.eqb_spec a b) as [->|Hne].
    + rewrite IH. split; [by intros ->|by intros [= ->]].
    + split; [discriminate|intros [= ? ?]; congruence].
Qed.

Lemma span_spec p : forall s m r,
  Js.span p s = (m, r) ->
  s = m +:+ r /\ Js.forallb_string p m = true /\
  match r with
  | EmptyString => True
  | String c _ => p c = false
  end.
Proof.
  induction s as [|c s IH]; simpl; intros m r H.
  - by injection H as <- <-.
  - destruct (p c) eqn:Hc.
    + destruct (Js.span p s) as [a b]. injection H as <- <-.
      destruct (IH _ _ eq_refl) as (-> & Ha & Hb). simpl. by rewrite Hc, Ha.
    + injection H as <- <-. simpl. by rewrite Hc.
Qed.

Lemma span_app p m : forall r,
  Js.forallb_string p m = true ->
  match r with
  | EmptyString => True
  | String c _ => p c = false
  end ->
  Js.span p (m +:+ r) = (m, r).
Proof.
  induction m as [|c m IH]; simpl; intros r Hm Hr.
  - destruct r as [|c r]; [reflexivity|]. simpl. by rewrite Hr.
  - apply andb_true_iff in Hm as [-> Hm]. by rewrite (IH _ Hm Hr).
Qed.

Lemma is_empty_spec s : Js.is_empty s = true <-> s = EmptyString.
Proof. destruct s; simpl; split; congruence. Qed.

(** The pattern matches exactly the strings
    [data:<mime>;base64,<payload>] with well-formed parts. *)
Lemma match_data_url_spec (imageData mime payload : string) :
  match_data_url imageData = Some (mime, payload) <->
  imageData = data_url mime payload /\
  nonempty_all is_mime_char mime /\
  nonempty_all not_line_terminator payload.
Proof.
  unfold match_data_url, data_url, nonempty_all. split.
  - destruct (Js.strip_prefix "data:" imageData) as [r|] eqn:E1;
      [|discriminate].
    apply strip_prefix_spec in E1 as ->.
    destruct (Js.span is_mime_char r) as [m r1] eqn:E2.
    apply span_spec in E2 as (-> & Hm & _).
    destruct (Js.is_empty m) eqn:Em; [discriminate|].
    destruct (Js.strip_prefix ";base64," r1) as [b|] eqn:E3; [|discriminate].
    apply strip_prefix_spec in E3 as ->.
    destruct (Js.is_empty b) eqn:Eb; [discriminate|].
    destruct (Js.forallb_string _ b) eqn:Ef; [|discriminate].
    intros [= <- <-]. repeat split; auto.
    + intros ->. discriminate Em.
    + intros ->. discriminate Eb.
  - intros (-> & [Hm1 Hm2] & [Hp1 Hp2]).
    assert (Js.strip_prefix "data:" ("data:" +:+ mime +:+ ";base64," +:+ payload)
            = Some (mime +:+ ";base64," +:+ payload)) as ->
      by (by apply strip_prefix_spec).
    rewrite (span_app is_mime_char mime (";base64," +:+ payload) Hm2 eq_refl).
    destruct (Js.is_empty mime) eqn:Em;
      [apply is_empty_spec in Em; contradiction|].
    assert (Js.strip_prefix ";base64," (";base64," +:+ payload) = Some payload)
      as -> by (by apply strip_prefix_spec).
    destruct (Js.is_empty payload) eqn:Ep;
      [apply is_empty_spec in Ep; contradiction|].
    fold not_line_terminator. by rewrite Hp2.
Qed.

(** X1.  The pattern [/^data:([A-Za-z-+/]+);base64,(.+)$/] and the
    shape [data:<mime>;base64,<payload>] are inverse to each other on
    well-formed parts (a non-empty [mime] of letters, [-], [+], [/]; a
    non-empty [payload] free of line terminators): the pattern splits
    such a string back into its two parts, whatever it matches is such a
    string, and so two well-formed pairs never give the same string. *)
Theorem match_data_url_round_trip (mime payload : string) :
  (nonempty_all is_mime_char mime ->
   nonempty_all not_line_terminator payload ->
   match_data_url (data_url mime payload) = Some (mime, payload)) /\
  (forall imageData,
     match_data_url imageData = Some (mime, payload) ->
     data_url mime payload = imageData /\
     nonempty_all is_mime_char mime /\
     nonempty_all not_line_terminator payload) /\
  (forall mime' payload',
     nonempty_all is_mime_char mime ->
     nonempty_all not_line_terminator payload ->
     nonempty_all is_mime_char mime' ->
     nonempty_all not_line_terminator payload' ->
     data_url mime payload = data_url mime' payload' ->
     mime = mime' /\ payload = payload').
Proof.
  split; [|split].
  - intros Hm Hp. by apply match_data_url_spec.
  - intros imageData H.
    apply match_data_url_spec in H as (-> & Hm & Hp). auto.
  - intros mime' payload' Hm Hp Hm' Hp' Heq.
    assert (match_data_url (data_url mime payload) = Some (mime, payload))
      as H1 by (by apply match_data_url_spec).
    assert (match_data_url (data_url mime' payload') = Some (mime', payload'))
      as H2 by (by apply match_data_url_spec).
    rewrite Heq, H2 in H1. by injection H1.
Qed.

Lemma match_data_url_round_trip_witness :
  match_data_url (data_url "image/png" "iVBORw0KGgo=") =
    Some ("image/png", "iVBORw0KGgo=").
Proof.
  apply (match_data_url_round_trip "image/png" "iVBORw0KGgo=");
    split; (discriminate || reflexivity).
Defined.

(** X2.  [analyzeImage] sends a request exactly when the API key is
    configured and the image is [data:<mime>;base64,<payload>] with
    [mime] one of [image/jpeg], [image/png] and a non-empty payload free
    of line terminators; the request then carries the fixed prompt, that
    payload and that type.  Otherwise it throws, in this order of
    precedence: the missing-key error, the invalid-format error, the
    unsupported-format error. *)
Theorem analyzeImage_begin_cases (key : bool) (imageData : string) :
  (forall req,
     analyzeImage_begin key imageData = inr req <->
     key = true /\
     prompt req = SYSTEM_PROMPT /\
     (mimeType req = "image/jpeg" \/ mimeType req = "image/png") /\
     nonempty_all not_line_terminator (inlineData req) /\
     imageData = data_url (mimeType req) (inlineData req)) /\
  (forall err,
     analyzeImage_begin key imageData = inl err ->
     key = false /\ err = Js.ErrorObj MSG_NO_API_KEY \/
     key = true /\ match_data_url imageData = None /\
       err = Js.ErrorObj MSG_INVALID_FORMAT \/
     key = true /\ err = Js.ErrorObj MSG_UNSUPPORTED_FORMAT /\
       exists mime payload,
         match_data_url imageData = Some (mime, payload) /\
         mime <> "image/jpeg" /\ mime <> "image/png").
Proof.
  unfold analyzeImage_begin, Js.array_includes, SUPPORTED_TYPES.
  cbn [existsb]. destruct key; cbn [negb].
  2:{ split; [intros req; split; [discriminate|by intros [? _]]|].
      intros err [= <-]. by left. }
  destruct (match_data_url imageData) as [[mime payload]|] eqn:E.
  2:{ split.
      - intros req. split; [discriminate|].
        intros (_ & _ & Hm & Hp & Hd).
        assert (match_data_url imageData =
                  Some (mimeType req, inlineData req)) as Hs.
        { apply match_data_url_spec. repeat split; try apply Hp; auto.
          - destruct Hm as [-> | ->]; discriminate.
          - destruct Hm as [-> | ->]; reflexivity. }
        congruence.
      - intros err [= <-]. right; left. auto. }
  pose proof E as E'. apply match_data_url_spec in E' as (Hd & Hm & Hp).
  assert (forall req,
            true = true /\ prompt req = SYSTEM_PROMPT /\
            (mimeType req = "image/jpeg" \/ mimeType req = "image/png") /\
            nonempty_all not_line_terminator (inlineData req) /\
            imageData = data_url (mimeType req) (inlineData req) ->
            (mime = "image/jpeg" \/ mime = "image/png") /\
            {| prompt := SYSTEM_PROMPT; inlineData := payload;
               mimeType := mime |} = req) as Hback.
  { intros req (_ & Hpr & Hmr & Hpl & Hdr).
    assert (match_data_url imageData =
              Some (mimeType req, inlineData req)) as Hs.
    { apply match_data_url_spec. repeat split; try apply Hpl; auto;
        destruct Hmr as [-> | ->]; (discriminate || reflexivity). }
    rewrite E in Hs. injection Hs as Hs1 Hs2.
    split; [by rewrite Hs1|].
    destruct req; simpl in *; congruence. }
  destruct (String.eqb_spec mime "image/jpeg") as [Hj|Hj];
    destruct (String.eqb_spec mime "image/png") as [Hg|Hg];
    cbn [orb negb]; split;
    try (intros err; discriminate);
    try (intros req; split;
         [intros [= <-]; simpl; auto 10
         |intros H; f_equal; by apply Hback]).
  - intros req. split; [discriminate|].
    intros H. apply Hback in H as [[?|?] _]; contradiction.
  - intros err [= <-]. right; right. eauto 10.
Qed.

(** ** The error mapping of [analyzeImage] *)

Lemma analyzeImage_catch_plain m :
  Forall (fun k => Js.includes m k = false) catch_keywords ->
  analyzeImage_catch (Js.ErrorObj m) = Js.ErrorObj m.
Proof.
  unfold catch_keywords. intros H.
  repeat match goal with
         | H : Forall _ (_ :: _) |- _ => apply Forall_cons in H as [? H]
         end.
  simpl.
  repeat match goal with E : Js.includes m _ = false |- _ => rewrite E; clear E end.
  reflexivity.
Qed.

(** X3.  Whatever is caught, [analyzeImage] rethrows an [Error] object.
    Its message is one of seven fixed texts, or else the message of the
    caught error, kept only when that holds none of the keywords.
    Mapping an already mapped error changes nothing. *)
Theorem analyzeImage_catch_classifies (err : Js.Thrown) :
  (exists m, analyzeImage_catch err = Js.ErrorObj m /\
     (m ∈ catch_messages \/
      err = Js.ErrorObj m /\
      Forall (fun k => Js.includes m k = false) catch_keywords)) /\
  analyzeImage_catch (analyzeImage_catch err) = analyzeImage_catch err.
Proof.
  destruct err as [m|].
  2:{ split; [|reflexivity]. eexists. split; [reflexivity|].
      left. compute_done. }
  unfold analyzeImage_catch at 1 3 4.
  destruct (Js.includes m "UNAUTHENTICATED") eqn:E1;
    [split; [eexists; split; [reflexivity|left; compute_done]|reflexivity]|].
  destruct (Js.includes m "PERMISSION_DENIED") eqn:E2;
    [split; [eexists; split; [reflexivity|left; compute_done]|reflexivity]|].
  destruct (Js.includes m "RESOURCE_EXHAUSTED") eqn:E3;
    [split; [eexists; split; [reflexivity|left; compute_done]|reflexivity]|].
  destruct (Js.includes m "size") eqn:E4; cbn [orb];
    [split; [eexists; split; [reflexivity|left; compute_done]|reflexivity]|].
  destruct (Js.includes m "too large") eqn:E5;
    [split; [eexists; split; [reflexivity|left; compute_done]|reflexivity]|].
  destruct (Js.includes m "timeout") eqn:E6;
    [split; [eexists; split; [reflexivity|left; compute_done]|reflexivity]|].
  destruct (Js.includes m "network") eqn:E7;
    [split; [eexists; split; [reflexivity|left; compute_done]|reflexivity]|].
  assert (Forall (fun k => Js.includes m k = false) catch_keywords) as Hk
    by (unfold catch_keywords; repeat constructor; assumption).
  split; [eexists; split; [reflexivity|right; auto]|].
  by apply analyzeImage_catch_plain.
Qed.

(** ** Trimming before parsing *)

Lemma parseInt_unfold s :
  Js.parseInt s =
    match Js.trimStart s with
    | String c r =>
        if Ascii.eqb c "-" then parse_unsigned (-1) r
        else if Ascii.eqb c "+" then parse_unsigned 1 r
        else parse_unsigned 1 (Js.trimStart s)
    | EmptyString => parse_unsigned 1 EmptyString
    end.
Proof.
  unfold Js.parseInt, parse_unsigned.
  destruct (Js.trimStart s) as [|c r]; [reflexivity|].
  destruct (Ascii.eqb c "-"); [reflexivity|].
  destruct (Ascii.eqb c "+"); reflexivity.
Qed.

Lemma white_space_not_digit radix c :
  Js.is_white_space c = true -> Js.digit_val radix c = None.
Proof.
  unfold Js.is_white_space. rewrite !orb_true_iff, between_spec, !Z.eqb_eq.
  intros H. unfold Js.digit_val.
  assert (Js.between 48 57 c = false) as -> by (apply between_false; lia).
  assert (Js.between 97 122 c = false) as -> by (apply between_false; lia).
  assert (Js.between 65 90 c = false) as -> by (apply between_false; lia).
  reflexivity.
Qed.

Lemma digits_prefix_trimEnd radix s :
  Js.digits_prefix radix (Js.trimEnd s) = Js.digits_prefix radix s.
Proof.
  induction s as [|c s IH]; [reflexivity|].
  cbn [Js.trimEnd Js.digits_prefix].
  destruct (Js.is_white_space c) eqn:W.
  - rewrite (white_space_not_digit radix c W).
    destruct (Js.is_empty (Js.trimEnd s)); simpl; [reflexivity|].
    by rewrite (white_space_not_digit radix c W).
  - simpl. destruct (Js.digit_val radix c); [|reflexivity]. by rewrite IH.
Qed.

Lemma trimEnd_cons c s :
  Js.is_white_space c = false ->
  Js.trimEnd (String c s) = String c (Js.trimEnd s).
Proof. intros H. cbn [Js.trimEnd]. by rewrite H. Qed.

Lemma trimStart_head s :
  match Js.trimStart s with
  | String c _ => Js.is_white_space c = false
  | EmptyString => True
  end.
Proof.
  induction s as [|c s IH]; simpl; [exact I|].
  destruct (Js.is_white_space c) eqn:W; [exact IH|exact W].
Qed.

Lemma parse_unsigned_trimEnd sign s :
  parse_unsigned sign (Js.trimEnd s) = parse_unsigned sign s.
Proof.
  unfold parse_unsigned.
  destruct s as [|c0 [|c1 r]].
  - reflexivity.
  - cbn [Js.trimEnd Js.is_empty]. rewrite andb_true_r.
    destruct (Js.is_white_space c0) eqn:W0; [|reflexivity].
    cbn [Js.digits_prefix]. by rewrite (white_space_not_digit 10 c0 W0).
  - destruct (Ascii.eqb c0 "0" && (Ascii.eqb c1 "x" || Ascii.eqb c1 "X"))
      eqn:Hx.
    + apply andb_true_iff in Hx as [H0 H1].
      apply Ascii.eqb_eq in H0 as ->.
      assert (Js.is_white_space c1 = false) as W1.
      { apply orb_true_iff in H1 as [H1|H1];
          apply Ascii.eqb_eq in H1 as ->; reflexivity. }
      rewrite (trimEnd_cons "0" _ eq_refl), (trimEnd_cons c1 _ W1).
      rewrite Ascii.eqb_refl. cbn [andb].
      apply orb_true_iff in H1 as [H1|H1]; rewrite H1; cbn [orb];
        rewrite ?orb_true_r; by rewrite digits_prefix_trimEnd.
    + assert (Js.digits_prefix 10 (Js.trimEnd (String c0 (String c1 r))) =
              Js.digits_prefix 10 (String c0 (String c1 r))) as Hd
        by apply digits_prefix_trimEnd.
      destruct (Js.trimEnd (String c0 (String c1 r))) as [|d0 [|d1 r']] eqn:Ht;
        try (by rewrite Hd).
      assert (d0 = c0 /\ d1 = c1) as [-> ->].
      { cbn [Js.trimEnd] in Ht.
        destruct (Js.is_white_space c1 && Js.is_empty (Js.trimEnd r));
          destruct (Js.is_white_space c0); simpl in Ht;
          try discriminate; by injection Ht as -> -> _. }
      rewrite Hx. by rewrite Hd.
Qed.

(** X4.  The [trim()] that [analyzeImage] applies to the response text
    before [parseInt] makes no difference to the number read: [parseInt]
    skips leading white space itself and stops at the first non-digit. *)
Theorem parseInt_trim (s : string) : Js.parseInt (Js.trim s) = Js.parseInt s.
Proof.
  rewrite !parseInt_unfold. unfold Js.trim.
  assert (Js.trimStart (Js.trimStart s) = Js.trimStart s) as Hss.
  { pose proof (trimStart_head s) as H.
    destruct (Js.trimStart s) as [|c r]; [reflexivity|]. simpl. by rewrite H. }
  pose proof (trimStart_head s) as Hh.
  destruct (Js.trimStart s) as [|c r] eqn:E; [reflexivity|].
  rewrite (trimEnd_cons c r Hh). cbn [Js.trimStart]. rewrite Hh.
  destruct (Ascii.eqb c "-"); [apply parse_unsigned_trimEnd|].
  destruct (Ascii.eqb c "+"); [apply parse_unsigned_trimEnd|].
  rewrite <- (trimEnd_cons c r Hh). apply parse_unsigned_trimEnd.
Qed.

(** ** Requests over a run *)

Lemma run_invariant (P : World -> Prop) :
  (forall w ev w', P w -> step w ev = Some w' -> P w') ->
  forall evs w w', P w -> run w evs = Some w' -> P w'.
Proof.
  intros Hstep. induction evs as [|ev evs IH]; simpl; intros w w' HP H.
  - by injection H as <-.
  - destruct (step w ev) as [w1|] eqn:E; [|discriminate]. eauto.
Qed.

Lemma race_settled_requests c d o u w :
  requests (race_settled c d o u w) = requests w.
Proof.
  destruct (race_settled_cases c d o u w) as [(m & _ & ->)|(lvl & _ & ->)];
    [apply onDrop_catch_frame|reflexivity].
Qed.

Lemma onDrop_catch_requests c err w :
  requests (onDrop_catch c err w) = requests w.
Proof. apply onDrop_catch_frame. Qed.

Lemma set_phase_requests a p w : requests (set_phase a p w) = requests w.
Proof. apply set_phase_frame. Qed.

Lemma set_phase_env a p w : env (set_phase a p w) = env w.
Proof. apply set_phase_frame. Qed.

(** What one step does to the requests and the attempts together. *)
Lemma step_work_shape w ev w' :
  step w ev = Some w' ->
  (requests w' = requests w /\
   (attempts w' = attempts w \/
    exists b at_b p,
      attempts w !! b = Some at_b /\ phase_next (phase at_b) p /\
      p <> Reading /\ attempts w' = attempts (set_phase b p w))) \/
  (requests w' = requests w /\
   attempts w' =
     attempts w ++ [{| closure_image := onDrop_image w; phase := Reading |}]) \/
  (exists b at_b d req,
     attempts w !! b = Some at_b /\ phase at_b = Reading /\
     analyzeImage_begin (apiKey (env w)) d = inr req /\
     requests w' = requests w ++ [req] /\
     attempts w' =
       attempts (set_phase b (Racing d (clock w + timeoutMs)%Z) w)).
Proof.
  destruct ev; simpl; unfold network_settles, timer_fires, reader_onerror;
    intros H;
    repeat match type of H with
           | context [match ?x with _ => _ end] => destruct x eqn:?
           end;
    try discriminate; injection H as <-;
    rewrite ?race_settled_attempts, ?onDrop_catch_attempts,
      ?race_settled_requests, ?onDrop_catch_requests, ?set_phase_requests;
    try (left; split; [reflexivity|left; reflexivity]);
    try (left; split; [reflexivity|];
         right; do 3 eexists;
         split; [eassumption|split; [|split; [|reflexivity]]];
         [match goal with H : phase _ = _ |- _ => rewrite H end; constructor
         |discriminate]).
  - unfold onDrop. destruct acceptedFiles as [|file ?]; [by left; split; [|left]|].
    destruct (onDrop_validate file).
    + left. rewrite onDrop_catch_requests, onDrop_catch_attempts. auto.
    + right; left. split; reflexivity.
  - unfold reader_onload.
    assert (forall err,
              requests (onDrop_catch (closure_image a0) err (set_phase a Over w))
                = requests w /\
              (attempts (onDrop_catch (closure_image a0) err (set_phase a Over w))
                 = attempts w \/
               exists b at_b p,
                 attempts w !! b = Some at_b /\ phase_next (phase at_b) p /\
                 p <> Reading /\
                 attempts (onDrop_catch (closure_image a0) err
                             (set_phase a Over w))
                   = attempts (set_phase b p w))) as Hfail.
    { intros err.
      rewrite onDrop_catch_requests, onDrop_catch_attempts, set_phase_requests.
      split; [reflexivity|]. right. exists a, a0, Over.
      split; [exact Heqo|]. split; [rewrite Heqp; constructor|].
      split; [discriminate|reflexivity]. }
    destruct result as [imageData|]; [|left; apply Hfail].
    destruct (Js.is_empty imageData); [left; apply Hfail|].
    destruct (analyzeImage_begin _ _) as [err|req] eqn:Eb; [left; apply Hfail|].
    right; right. exists a, a0, imageData, req.
    simpl. rewrite set_phase_requests. auto.
  - left. unfold resetAnalysis.
    destruct (truthy (image (ui w))), (image (ui w)); simpl; auto.
Qed.

Lemma onDrop_catch_env c err w : env (onDrop_catch c err w) = env w.
Proof. apply onDrop_catch_frame. Qed.

Lemma race_settled_env c d o u w : env (race_settled c d o u w) = env w.
Proof.
  destruct (race_settled_cases c d o u w) as [(m & _ & ->)|(lvl & _ & ->)];
    [apply onDrop_catch_env|reflexivity].
Qed.

Lemma reader_onload_env a c result w : env (reader_onload a c result w) = env w.
Proof.
  unfold reader_onload.
  destruct result as [imageData|];
    [destruct (Js.is_empty imageData);
     [|destruct (analyzeImage_begin _ _)]|];
    rewrite ?onDrop_catch_env; cbn [generateContent env];
    apply set_phase_env.
Qed.

Lemma step_env w ev w' : step w ev = Some w' -> env w' = env w.
Proof.
  destruct ev; simpl; unfold network_settles, timer_fires, reader_onerror;
    intros H;
    repeat match type of H with
           | context [match ?x with _ => _ end] => destruct x eqn:?
           end;
    try discriminate; injection H as <-;
    rewrite ?race_settled_env, ?onDrop_catch_env, ?reader_onload_env,
      ?set_phase_env;
    try reflexivity.
  - unfold onDrop. destruct acceptedFiles as [|file ?]; [reflexivity|].
    destruct (onDrop_validate file); [|reflexivity]. apply onDrop_catch_env.
  - unfold resetAnalysis.
    destruct (truthy (image (ui w))), (image (ui w)); reflexivity.
Qed.

Lemma analyzeImage_begin_inr key imageData req :
  analyzeImage_begin key imageData = inr req ->
  key = true /\ request_ok req /\
  imageData = data_url (mimeType req) (inlineData req).
Proof.
  unfold analyzeImage_begin, Js.array_includes, SUPPORTED_TYPES, request_ok.
  cbn [existsb]. destruct key; cbn [negb]; [|discriminate].
  destruct (match_data_url imageData) as [[mime payload]|] eqn:E;
    [|discriminate].
  apply match_data_url_spec in E as (Hd & _ & Hp).
  destruct (String.eqb_spec mime "image/jpeg") as [Hj|Hj];
    destruct (String.eqb_spec mime "image/png") as [Hg|Hg];
    cbn [orb negb]; try discriminate; intros [= <-]; simpl; auto 10.
Qed.

(** X5.  Every request the page ever makes carries the fixed prompt, a
    type that is [image/jpeg] or [image/png] and a non-empty payload free
    of line terminators. *)
Theorem requests_well_formed
    (e : Env) (stored : list AnalysisResult) (evs : list Event) (w : World)
    (r : Request) :
  run (initial e stored) evs = Some w -> r ∈ requests w -> request_ok r.
Proof.
  intros Hrun Hr.
  assert (Forall request_ok (requests w)) as Hall.
  { refine (run_invariant (fun w => Forall request_ok (requests w)) _
              evs (initial e stored) w (Forall_nil_2 _) Hrun).
    clear. intros w ev w' HP Hstep.
    destruct (step_work_shape _ _ _ Hstep)
      as [[-> _]|[[-> _]|(b & at_b & d & req & _ & _ & Hb & -> & _)]];
      try exact HP.
    apply Forall_app. split; [exact HP|].
    constructor; [|constructor].
    apply analyzeImage_begin_inr in Hb as (_ & Hb & _). exact Hb. }
  eapply Forall_forall in Hall; eauto.
Qed.

Lemma requests_well_formed_witness :
  request_ok {| prompt := SYSTEM_PROMPT; inlineData := "iVBORw0KGgo=";
                mimeType := "image/png" |}.
Proof.
  eapply (requests_well_formed env0 [] success_trace).
  - vm_compute. reflexivity.
  - simpl. constructor.
Defined.

(** X6.  Without an API key the page never makes a request: every file
    that is read fails with the missing-key error, and the list of
    requests stays as it is over any run. *)
Theorem no_key_no_request
    (w : World) (evs : list Event) (w' : World) :
  apiKey (env w) = false ->
  run w evs = Some w' ->
  requests w' = requests w /\
  forall a at_ imageData,
    attempts w' !! a = Some at_ -> phase at_ = Reading ->
    imageData <> EmptyString ->
    exists w'', step w' (ReaderLoad a (Some imageData)) = Some w'' /\
                lifecycle (ui w'') = Error MSG_NO_API_KEY /\
                requests w'' = requests w' /\
                phase_of a w'' = Some Over.
Proof.
  intros Hkey Hrun.
  assert (apiKey (env w') = false /\ requests w' = requests w) as [Hk' Hreq].
  { refine (run_invariant
              (fun v => apiKey (env v) = false /\ requests v = requests w) _
              evs w w' (conj Hkey eq_refl) Hrun).
    clear. intros v ev v' [Hk Hr] Hstep.
    rewrite (step_env _ _ _ Hstep). split; [exact Hk|].
    destruct (step_work_shape _ _ _ Hstep)
      as [[-> _]|[[-> _]|(b & at_b & d & req & _ & _ & Hb & _)]];
      try exact Hr.
    apply analyzeImage_begin_inr in Hb as [Hb _]. congruence. }
  split; [exact Hreq|].
  intros a at_ imageData Ha Hp Hne. eexists. split.
  { simpl. rewrite Ha, Hp. reflexivity. }
  unfold reader_onload.
  destruct (Js.is_empty imageData) eqn:Ee;
    [apply is_empty_spec in Ee; contradiction|].
  unfold analyzeImage_begin. rewrite Hk'. cbn [negb].
  rewrite onDrop_catch_lifecycle, onDrop_catch_requests, set_phase_requests.
  repeat split. unfold phase_of.
  rewrite onDrop_catch_attempts, (phase_of_set_phase _ _ _ _ Ha). reflexivity.
Qed.

Lemma no_key_no_request_witness :
  requests (onDrop [png100] "blob:1"
              (initial {| apiKey := false; setHistory_stable := true |} []))
    = [].
Proof.
  refine (proj1 (no_key_no_request
                   (initial {| apiKey := false; setHistory_stable := true |} [])
                   [Drop [png100] "blob:1"] _ _ _)).
  - reflexivity.
  - reflexivity.
Defined.

Lemma reading_insert_le (l : list Attempt) b x :
  is_reading x = false -> reading (<[b:=x]> l) <= reading l.
Proof.
  unfold reading. intros Hx. revert b.
  induction l as [|y l IH]; intros [|b]; simpl; try lia.
  - rewrite Hx. destruct (is_reading y); simpl; lia.
  - specialize (IH b). destruct (is_reading y); simpl; lia.
Qed.

Lemma reading_insert_lt (l : list Attempt) b old x :
  l !! b = Some old -> is_reading old = true -> is_reading x = false ->
  S (reading (<[b:=x]> l)) = reading l.
Proof.
  unfold reading. intros Hb Ho Hx. revert b Hb.
  induction l as [|y l IH]; intros [|b] Hb; simpl in *; try discriminate.
  - injection Hb as ->. by rewrite Hx, Ho.
  - specialize (IH b Hb). destruct (is_reading y); simpl; lia.
Qed.

Lemma reading_app l1 l2 : reading (l1 ++ l2) = reading l1 + reading l2.
Proof. unfold reading. by rewrite List.filter_app, length_app. Qed.

Lemma attempts_set_phase b p w at_b :
  attempts w !! b = Some at_b ->
  attempts (set_phase b p w) =
    <[b := {| closure_image := closure_image at_b; phase := p |}]> (attempts w).
Proof. intros H. unfold set_phase. by rewrite H. Qed.

(** X7.  No retries: the page makes at most one request per accepted
    file.  Over any run the requests made, together with the attempts
    whose file is still being read, never outnumber the attempts. *)
Theorem one_request_per_attempt
    (e : Env) (stored : list AnalysisResult) (evs : list Event) (w : World) :
  run (initial e stored) evs = Some w ->
  length (requests w) + reading (attempts w) <= length (attempts w) /\
  length (requests w) <= length (attempts w).
Proof.
  intros Hrun.
  assert (length (requests w) + reading (attempts w) <= length (attempts w));
    [|lia].
  refine (run_invariant
            (fun w => length (requests w) + reading (attempts w)
                      <= length (attempts w)) _
            evs (initial e stored) w _ Hrun); [|unfold reading; simpl; lia].
  clear. intros w ev w' HP Hstep.
  destruct (step_work_shape _ _ _ Hstep)
    as [[-> [-> |(b & at_b & p & Hb & _ & Hp & ->)]]
       |[[-> ->]|(b & at_b & d & req & Hb & Hph & _ & -> & ->)]].
  - exact HP.
  - rewrite (attempts_set_phase _ _ _ _ Hb), length_insert.
    pose proof (reading_insert_le (attempts w) b
                  {| closure_image := closure_image at_b; phase := p |}) as Hle.
    unfold is_reading in Hle at 1. simpl in Hle.
    destruct p; try (by destruct Hp); specialize (Hle eq_refl); lia.
  - rewrite reading_app, !length_app. simpl. unfold reading at 2. simpl. lia.
  - rewrite (attempts_set_phase _ _ _ _ Hb), length_insert, length_app. simpl.
    pose proof (reading_insert_lt (attempts w) b at_b
                  {| closure_image := closure_image at_b;
                     phase := Racing d (clock w + timeoutMs) |} Hb) as Hlt.
    unfold is_reading in Hlt at 1 2. rewrite Hph in Hlt. simpl in Hlt.
    specialize (Hlt eq_refl eq_refl). lia.
Qed.

Lemma one_request_per_attempt_witness :
  length (requests overlap_world) + reading (attempts overlap_world)
    <= length (attempts overlap_world) /\
  length (requests overlap_world) <= length (attempts overlap_world).
Proof.
  apply (one_request_per_attempt env0 [] overlap_trace overlap_world).
  vm_compute. reflexivity.
Defined.

(** ** Attempts whose race has settled *)

Lemma step_settled w ev w' a :
  settled a w -> step w ev = Some w' -> settled a w'.
Proof.
  unfold settled, phase_of. intros (p & Hp & Hs) Hstep.
  destruct (attempts w !! a) as [at_|] eqn:Ha; [|discriminate].
  injection Hp as <-.
  destruct (step_attempt _ _ _ _ _ Hstep Ha) as (at' & -> & _ & Hph).
  exists (phase at'). split; [reflexivity|].
  destruct Hph as [->|Hn]; [exact Hs|].
  inversion Hn as [| | | | |]; subst; try exact I;
    match goal with H : _ = phase at_ |- _ => rewrite <- H in Hs end;
    contradiction.
Qed.

(** X8.  Once the race of an attempt has settled, or the attempt has
    ended without a request, nothing that still happens in that attempt
    touches the page: the timer that was never cleared fires without
    effect after an answer, as an answer does after the timer, and no
    reader event can occur. *)
Theorem settled_attempt_is_silent
    (w : World) (a : nat) (evs : list Event) (w1 : World) (ev : Event)
    (w2 : World) :
  settled a w ->
  run w evs = Some w1 ->
  attempt_event a ev = true ->
  step w1 ev = Some w2 ->
  ui w2 = ui w1 /\ objectUrls w2 = objectUrls w1 /\
  requests w2 = requests w1 /\ phase_of a w2 = Some Over.
Proof.
  intros Hs Hrun Hev Hstep.
  assert (settled a w1) as (p & Hp & Hsp).
  { refine (run_invariant (settled a) _ evs w w1 Hs Hrun).
    intros; eapply step_settled; eauto. }
  unfold phase_of in Hp.
  destruct (attempts w1 !! a) as [at_|] eqn:Ha; [|discriminate].
  injection Hp as Hp.
  assert (w2 = set_phase a Over w1) as ->.
  { destruct ev; try discriminate; simpl in Hev;
      apply Nat.eqb_eq in Hev as <-; simpl in Hstep;
      unfold network_settles, timer_fires in Hstep;
      rewrite Ha, Hp in Hstep; destruct p; try contradiction;
      try discriminate;
      repeat match type of Hstep with
             | context [if ?b then _ else _] => destruct b
             end;
      try discriminate; by injection Hstep. }
  destruct (set_phase_frame a Over w1) as (-> & -> & -> & _).
  repeat split. unfold phase_of.
  by rewrite (phase_of_set_phase _ _ _ _ Ha).
Qed.

Lemma settled_attempt_is_silent_witness :
  ui (world_after (success_trace ++ [Tick 30000; TimerFired 0])) =
    ui (world_after (success_trace ++ [Tick 30000])).
Proof.
  refine (proj1 (settled_attempt_is_silent
                   (world_after success_trace) 0 [Tick 30000]
                   (world_after (success_trace ++ [Tick 30000]))
                   (TimerFired 0)
                   (world_after (success_trace ++ [Tick 30000; TimerFired 0]))
                   _ _ _ _)).
  - exists (Answered 30000). split; [vm_compute; reflexivity|exact I].
  - vm_compute. reflexivity.
  - reflexivity.
  - vm_compute. reflexivity.
Defined.

(** ** One upload from drop to result *)


Lemma data_url_not_empty mime payload :
  Js.is_empty (data_url mime payload) = false.
Proof. reflexivity. Qed.

(** The page right after an accepted drop. *)
Lemma onDrop_accepted w file rest objectUrl :
  onDrop_validate file = None ->
  let w1 := onDrop (file :: rest) objectUrl w in
  ui w1 = {| image := Some objectUrl; loading := true; prediction := None;
             error := None; showHistory := showHistory (ui w);
             history := history (ui w);
             imageFilters := imageFilters (ui w) |} /\
  attempts w1 =
    attempts w ++ [{| closure_image := onDrop_image w; phase := Reading |}] /\
  requests w1 = requests w /\ clock w1 = clock w /\ env w1 = env w /\
  objectUrls w1 = objectUrl :: objectUrls w.
Proof. intros Hv. unfold onDrop. rewrite Hv. simpl. repeat split. Qed.



(** X10.  An empty file passes the checks of [onDrop] (its size is not
    above the limit) but reads as [data:<type>;base64,] with nothing
    after the comma, which the pattern of [analyzeImage] rejects: the
    page ends in Error with the invalid-format message and no request is
    made. *)
Theorem empty_file_is_invalid_format
    (w : World) (file : File) (rest : list File) (objectUrl : string) :
  apiKey (env w) = true ->
  file_type file = "image/jpeg" \/ file_type file = "image/png" ->
  file_size file = 0%Z ->
  let a := length (attempts w) in
  exists w',
    run w [Drop (file :: rest) objectUrl;
           ReaderLoad a (Some (data_url (file_type file) EmptyString))]
      = Some w' /\
    lifecycle (ui w') = Error MSG_INVALID_FORMAT /\
    requests w' = requests w /\
    history (ui w') = history (ui w) /\
    phase_of a w' = Some Over.
Proof.
  intros Hkey Hty Hsz a.
  assert (onDrop_validate file = None) as Hv.
  { apply onDrop_validate_None. split; [exact Hty|]. rewrite Hsz. lia. }
  destruct (onDrop_accepted w file rest objectUrl Hv)
    as (Hui1 & Hat1 & Hrq1 & Hck1 & Henv1 & _).
  set (w1 := onDrop (file :: rest) objectUrl w) in *.
  set (at1 := {| closure_image := onDrop_image w; phase := Reading |}) in *.
  assert (attempts w1 !! a = Some at1) as Ha1.
  { rewrite Hat1. subst a. by rewrite list_lookup_middle. }
  eexists. split.
  { cbn [run]. change (step w (Drop (file :: rest) objectUrl)) with (Some w1).
    cbn iota. cbn [step]. rewrite Ha1. cbn [phase at1]. reflexivity. }
  unfold reader_onload. rewrite data_url_not_empty, Henv1, Hkey.
  assert (analyzeImage_begin true (data_url (file_type file) EmptyString) =
            inl (Js.ErrorObj MSG_INVALID_FORMAT)) as ->
    by (destruct Hty as [-> | ->]; reflexivity).
  destruct (onDrop_catch_frame (closure_image at1)
              (Js.ErrorObj MSG_INVALID_FORMAT) (set_phase a Over w1))
    as (Hh & _ & Hr & Hat & _).
  rewrite onDrop_catch_lifecycle, Hr, Hh, set_phase_requests, set_phase_ui,
    Hrq1, Hui1.
  repeat split. unfold phase_of.
  by rewrite Hat, (phase_of_set_phase _ _ _ _ Ha1).
Qed.

Lemma empty_file_is_invalid_format_witness :
  exists w',
    run (initial env0 [])
      [Drop [{| file_type := "image/png"; file_size := 0 |}] "blob:1";
       ReaderLoad 0 (Some (data_url "image/png" EmptyString))] = Some w' /\
    lifecycle (ui w') = Error MSG_INVALID_FORMAT /\
    requests w' = [] /\
    history (ui w') = [] /\
    phase_of 0 w' = Some Over.
Proof.
  apply (empty_file_is_invalid_format (initial env0 [])
           {| file_type := "image/png"; file_size := 0 |} [] "blob:1").
  - reflexivity.
  - right. reflexivity.
  - reflexivity.
Defined.

(** ** The reset button *)

Lemma revokeObjectURL_gone u w : u ∉ objectUrls (revokeObjectURL u w).
Proof.
  simpl. intros H. apply list_elem_of_In, List.filter_In in H as [_ H].
  by rewrite String.eqb_refl in H.
Qed.

Lemma revokeObjectURL_subset u v w :
  v ∈ objectUrls (revokeObjectURL u w) -> v ∈ objectUrls w.
Proof.
  simpl. intros H. apply list_elem_of_In, List.filter_In in H as [H _].
  by apply list_elem_of_In.
Qed.

(** X11.  The reset button clears image, result and error and restores
    the default filters; it releases the object URL that was displayed
    and no other, and pressing it twice is the same as pressing it once.
    It leaves the history, the [loading] flag, the requests and the
    pending attempts alone, so the page is Idle afterwards only if no
    analysis was loading. *)
Theorem reset_clears_and_releases (w : World) :
  let w' := resetAnalysis w in
  ui w' = {| image := None; loading := loading (ui w); prediction := None;
             error := None; showHistory := showHistory (ui w);
             history := history (ui w);
             imageFilters := DEFAULT_IMAGE_FILTERS |} /\
  requests w' = requests w /\ attempts w' = attempts w /\
  lifecycle (ui w') = (if loading (ui w) then Loading else Idle) /\
  (forall u, image (ui w) = Some u -> u <> EmptyString ->
             u ∉ objectUrls w') /\
  (forall v, v ∈ objectUrls w' -> v ∈ objectUrls w) /\
  (forall v, v ∈ objectUrls w -> image (ui w) <> Some v ->
             v ∈ objectUrls w') /\
  resetAnalysis w' = w'.
Proof.
  unfold resetAnalysis.
  destruct (image (ui w)) as [u|] eqn:Hi; cbn [truthy];
    [destruct (Js.is_empty u) eqn:Hu; cbn [negb]|];
    (split; [reflexivity|]); (split; [reflexivity|]);
    (split; [reflexivity|]);
    (split; [unfold lifecycle; simpl; by destruct (loading (ui w))|]).
  - apply is_empty_spec in Hu as ->.
    repeat split; try done. intros u' [= <-]. done.
  - split; [|split; [|split]].
    + intros u' [= <-] _. simpl. apply (revokeObjectURL_gone u w).
    + intros v Hv. simpl in Hv. by apply (revokeObjectURL_subset u v w).
    + intros v Hv Hne. simpl.
      apply list_elem_of_In, List.filter_In. split; [by apply list_elem_of_In|].
      destruct (String.eqb_spec v u) as [->|]; [congruence|reflexivity].
    + reflexivity.
  - repeat split; try done.
Qed.

Lemma reset_clears_and_releases_witness :
  "blob:1" ∉ objectUrls (resetAnalysis (world_after success_trace)).
Proof.
  refine (proj1 (proj2 (proj2 (proj2 (proj2
            (reset_clears_and_releases (world_after success_trace))))))
            "blob:1" _ _).
  - vm_compute. reflexivity.
  - discriminate.
Defined.

Lemma reset_attempts_clock w :
  attempts (resetAnalysis w) = attempts w /\
  clock (resetAnalysis w) = clock w /\
  history (ui (resetAnalysis w)) = history (ui w).
Proof.
  unfold resetAnalysis.
  destruct (truthy (image (ui w))), (image (ui w)); repeat split.
Qed.

(** X12.  The reset button does not cancel an analysis in flight: when
    the pending request is answered afterwards with a valid level, the
    result is shown and enters the history although no image is
    displayed any more. *)
Theorem reset_does_not_cancel
    (w : World) (a : nat) (at_ : Attempt) (imageData : string)
    (deadline : Z) (r : GenResult) (uuid : string) (lvl : Z) :
  attempts w !! a = Some at_ ->
  phase at_ = Racing imageData deadline ->
  analyzeImage_settle (RaceResolved r) = inr lvl ->
  let result := processImage_result uuid (clock w) imageData lvl in
  exists w',
    run w [ClickReset; ModelResolved a r uuid] = Some w' /\
    prediction (ui w') = Some result /\
    history (ui w') = history_add result (history (ui w)) /\
    image (ui w') = None /\
    loading (ui w') = false.
Proof.
  intros Ha Hp Hs result.
  destruct (reset_attempts_clock w) as (Hat & Hck & Hh).
  eexists. split.
  { cbn [run step].
    rewrite (network_settles_racing (resetAnalysis w) a at_ imageData deadline);
      [reflexivity|by rewrite Hat|exact Hp]. }
  unfold race_settled. rewrite Hs. unfold onDrop_success. simpl.
  rewrite set_phase_ui, set_phase_clock, Hck, Hh.
  repeat split.
Qed.

Lemma reset_does_not_cancel_witness :
  exists w',
    run racing_world [ClickReset; ModelResolved 0 (Text "3") "uuid-1"]
      = Some w' /\
    prediction (ui w') = Some result3 /\
    history (ui w') = history_add result3 (history (ui racing_world)) /\
    image (ui w') = None /\
    loading (ui w') = false.
Proof.
  apply (reset_does_not_cancel racing_world 0
           {| closure_image := None; phase := Racing data0 30000 |}
           data0 30000 (Text "3") "uuid-1" 3).
  - vm_compute. reflexivity.
  - reflexivity.
  - reflexivity.
Defined.

(** ** Algebra of the history *)

Lemma history_delete_elem i prev r :
  r ∈ history_delete i prev <-> r ∈ prev /\ id r <> i.
Proof.
  unfold history_delete. rewrite !list_elem_of_In, List.filter_In.
  rewrite negb_true_iff, String.eqb_neq. tauto.
Qed.

Lemma history_delete_sublist i prev : history_delete i prev `sublist_of` prev.
Proof.
  unfold history_delete. induction prev as [|x t IH]; simpl; [constructor|].
  destruct (negb _); by constructor.
Qed.

(** X13.  Deleting an id leaves exactly the entries with another id, in
    their order; afterwards no entry has the id, so deleting again
    changes nothing, and deletions of two ids can be done in either
    order. *)
Theorem delete_is_a_filter (i j : string) (prev : list AnalysisResult) :
  (forall r, r ∈ history_delete i prev <-> r ∈ prev /\ id r <> i) /\
  (history_delete i prev `sublist_of` prev) /\
  (i ∉ map id (history_delete i prev)) /\
  history_delete i (history_delete i prev) = history_delete i prev /\
  history_delete i (history_delete j prev) =
    history_delete j (history_delete i prev).
Proof.
  assert (i ∉ map id (history_delete i prev)) as Hgone.
  { intros H. apply list_elem_of_fmap in H as (r & Hr & Hin).
    apply history_delete_elem in Hin as [_ Hne]. congruence. }
  split; [intros r; apply history_delete_elem|].
  split; [apply history_delete_sublist|].
  split; [exact Hgone|].
  split; [by apply history_delete_absent|].
  clear Hgone.
  unfold history_delete. induction prev as [|x t IH]; [reflexivity|].
  simpl.
  destruct (String.eqb (id x) j) eqn:Ej, (String.eqb (id x) i) eqn:Ei;
    simpl; rewrite ?Ej, ?Ei; simpl; by rewrite ?IH.
Qed.

Lemma take_9_short (prev : list AnalysisResult) :
  length prev < 10 -> take 9 prev = prev.
Proof. intros H. apply take_ge. lia. Qed.

(** X14.  Adding a result under a fresh id and then deleting that id
    gives back the first nine entries of the earlier history: the whole
    of it when it held fewer than ten, and otherwise all but the oldest,
    which the addition had already dropped for good. *)
Theorem add_then_delete (r : AnalysisResult) (prev : list AnalysisResult) :
  id r ∉ map id prev ->
  history_delete (id r) (history_add r prev) = take 9 prev /\
  (length prev < 10 -> history_delete (id r) (history_add r prev) = prev) /\
  (forall kept oldest,
     prev = kept ++ [oldest] -> length prev = 10 ->
     history_delete (id r) (history_add r prev) = kept).
Proof.
  intros Hfresh.
  assert (history_delete (id r) (history_add r prev) = take 9 prev) as H.
  { rewrite history_add_cons. unfold history_delete. simpl.
    rewrite String.eqb_refl. simpl.
    apply history_delete_absent. intros Hin. apply Hfresh.
    apply list_elem_of_fmap in Hin as (x & -> & Hx).
    apply list_elem_of_fmap. exists x. split; [reflexivity|].
    by apply (subseteq_take 9 prev). }
  split; [exact H|]. split.
  - intros Hlen. by rewrite H, take_9_short.
  - intros kept oldest -> Hlen. rewrite H.
    rewrite length_app in Hlen. simpl in Hlen.
    rewrite take_app_length'; [reflexivity|lia].
Qed.

Lemma add_then_delete_witness :
  history_delete "k" (history_add (entry "k" 2) ten_entries) =
    take 9 ten_entries.
Proof.
  refine (proj1 (add_then_delete (entry "k" 2) ten_entries _)).
  compute_done.
Defined.

(** X15.  Distinct ids stay distinct: adding a result whose id no entry
    has, and deleting any id, both keep the ids of the history free of
    repetitions. *)
Theorem ids_stay_distinct
    (r : AnalysisResult) (i : string) (prev : list AnalysisResult) :
  NoDup (map id prev) ->
  (id r ∉ map id prev -> NoDup (map id (history_add r prev))) /\
  NoDup (map id (history_delete i prev)).
Proof.
  intros Hnd. split.
  - intros Hfresh. rewrite history_add_cons. simpl.
    apply NoDup_cons. split.
    + intros Hin. apply Hfresh.
      apply list_elem_of_fmap in Hin as (x & -> & Hx).
      apply list_elem_of_fmap. exists x. split; [reflexivity|].
      by apply (subseteq_take 9 prev).
    + eapply sublist_NoDup; [exact Hnd|].
      apply (fmap_sublist id), sublist_take.
  - eapply sublist_NoDup; [exact Hnd|].
    apply (fmap_sublist id), history_delete_sublist.
Qed.

Lemma ids_stay_distinct_witness :
  NoDup (map id (history_add (entry "k" 2) ten_entries)) /\
  NoDup (map id (history_delete "c" ten_entries)).
Proof.
  destruct (ids_stay_distinct (entry "k" 2) "c" ten_entries) as [H1 H2].
  - compute_done.
  - split; [apply H1; compute_done|exact H2].
Defined.

(** ** What the history panel shows *)

(** X16.  Over any run (from a stored history of at most ten well-formed
    results) the history panel shows its placeholder exactly when the
    history is empty, and otherwise one row per entry, at most ten, keyed
    by the ids in order; every row has a severity heading and a
    description, both taken from the tables at the same level, so no row
    ever shows [undefined]. *)
Theorem panel_rows_labelled
    (e : Env) (stored : list AnalysisResult) (evs : list Event) (w : World) :
  Forall result_ok stored ->
  length stored <= 10 ->
  run (initial e stored) evs = Some w ->
  match HistoryPanel (history (ui w)) with
  | NoHistoryYet => history (ui w) = []
  | Rows rows =>
      history (ui w) <> [] /\
      length rows = length (history (ui w)) /\
      length rows <= 10 /\
      map row_key rows = map id (history (ui w)) /\
      Forall (fun row =>
                exists lvl label d,
                  (0 <= lvl <= 4)%Z /\
                  DR_LEVELS lvl = Some label /\
                  DR_DESCRIPTIONS lvl = Some d /\
                  row_label row = Some label /\
                  row_description row = Some d) rows
  end.
Proof.
  intros Hok Hlen Hrun.
  assert (results_ok (initial e stored)) as H0 by (split; [exact Hok|discriminate]).
  destruct (run_results_ok _ _ _ H0 Hrun) as [Hh _].
  pose proof (run_history_length evs (initial e stored) w Hlen Hrun) as Hl.
  unfold HistoryPanel.
  destruct (history (ui w)) as [|x t] eqn:E; [reflexivity|].
  cbn [length Nat.eqb]. rewrite length_map.
  split; [discriminate|]. split; [reflexivity|]. split; [exact Hl|].
  split.
  { rewrite List.map_map. reflexivity. }
  apply Forall_forall. intros row Hrow.
  apply list_elem_of_In, List.in_map_iff in Hrow as (r & <- & Hr).
  apply list_elem_of_In in Hr.
  eapply Forall_forall in Hh as [Hrange Hdesc]; [|exact Hr].
  destruct (DR_DESCRIPTIONS_defined _ Hrange) as [d Hd].
  assert (is_Some (DR_LEVELS (level r))) as [label Hlabel].
  { assert (level r = 0 \/ level r = 1 \/ level r = 2 \/ level r = 3 \/
            level r = 4)%Z as [->|[->|[->|[->| ->]]]] by lia;
      eexists; reflexivity. }
  exists (level r), label, d. simpl. rewrite Hdesc. auto.
Qed.

Lemma panel_rows_labelled_witness :
  match HistoryPanel (history (ui (world_after success_trace))) with
  | NoHistoryYet => history (ui (world_after success_trace)) = []
  | Rows rows =>
      history (ui (world_after success_trace)) <> [] /\
      length rows = length (history (ui (world_after success_trace))) /\
      length rows <= 10 /\
      map row_key rows = map id (history (ui (world_after success_trace))) /\
      Forall (fun row =>
                exists lvl label d,
                  (0 <= lvl <= 4)%Z /\
                  DR_LEVELS lvl = Some label /\
                  DR_DESCRIPTIONS lvl = Some d /\
                  row_label row = Some label /\
                  row_description row = Some d) rows
  end.
Proof.
  apply (panel_rows_labelled env0 [] success_trace (world_after success_trace)).
  - constructor.
  - simpl. lia.
  - vm_compute. reflexivity.
Defined.

Lemma history_delete_at (h : list AnalysisResult) : forall n r,
  NoDup (map id h) -> h !! n = Some r ->
  history_delete (id r) h = delete n h.
Proof.
  induction h as [|x t IH]; intros n r Hnd Hn; [discriminate|].
  simpl in Hnd. apply NoDup_cons in Hnd as [Hx Hnd].
  destruct n as [|n]; simpl in Hn.
  - injection Hn as ->. unfold history_delete. simpl.
    rewrite String.eqb_refl. simpl. by apply history_delete_absent.
  - unfold history_delete. simpl.
    destruct (String.eqb_spec (id x) (id r)) as [Heq|Hne].
    + exfalso. apply Hx. rewrite Heq.
      apply list_elem_of_In, List.in_map, list_elem_of_In.
      eapply list_elem_of_lookup_2, Hn.
    + simpl. f_equal. by apply IH.
Qed.

Lemma history_delete_shrinks (h : list AnalysisResult) r :
  r ∈ h -> length (history_delete (id r) h) < length h.
Proof.
  induction h as [|x t IH]; intros Hin; [by apply elem_of_nil in Hin|].
  unfold history_delete. simpl.
  destruct (String.eqb_spec (id x) (id r)) as [Heq|Hne]; simpl.
  - pose proof (history_delete_length (id r) t). unfold history_delete in *.
    lia.
  - apply elem_of_cons in Hin as [->|Hin]; [congruence|].
    specialize (IH Hin). unfold history_delete in IH. lia.
Qed.

(** X17.  The delete button of a row always removes that row: the
    history gets strictly shorter and no entry with the row's id is
    left.  When the ids are distinct it removes that row and no other. *)
Theorem panel_delete_removes_row (w : World) (n : nat) (r : AnalysisResult) :
  history (ui w) !! n = Some r ->
  exists w',
    HistoryPanel_onDelete n w = Some w' /\
    step w (ClickDelete (id r)) = Some w' /\
    length (history (ui w')) < length (history (ui w)) /\
    (id r ∉ map id (history (ui w'))) /\
    (NoDup (map id (history (ui w))) ->
     history (ui w') = delete n (history (ui w))).
Proof.
  intros Hn. exists (deleteFromHistory (id r) w).
  unfold HistoryPanel_onDelete. rewrite Hn. simpl.
  split; [reflexivity|]. split; [reflexivity|]. split; [|split].
  - apply history_delete_shrinks. eapply list_elem_of_lookup_2, Hn.
  - intros H. apply list_elem_of_In, List.in_map_iff in H as (x & Hx & Hin).
    apply list_elem_of_In, history_delete_elem in Hin as [_ Hne]. congruence.
  - intros Hnd. by apply history_delete_at.
Qed.

Lemma panel_delete_removes_row_witness :
  exists w',
    HistoryPanel_onDelete 7 (initial env0 ten_entries) = Some w' /\
    step (initial env0 ten_entries) (ClickDelete "c") = Some w' /\
    length (history (ui w')) < 10 /\
    ("c" ∉ map id (history (ui w'))) /\
    (NoDup (map id ten_entries) ->
     history (ui w') = delete 7 ten_entries).
Proof.
  apply (panel_delete_removes_row (initial env0 ten_entries) 7 (entry "c" 2)).
  reflexivity.
Defined.

(** X18.  Under a result with a level from 0 to 4 the severity scale
    highlights exactly one of its five tiles, the one whose label is the
    heading of the result; with any other level it highlights none. *)
Theorem one_tile_highlighted (lvl : Z) :
  map fst (severity_scale lvl) =
    ["No DR"; "Mild DR"; "Moderate DR"; "Severe DR"; "Proliferative DR"] /\
  ((0 <= lvl <= 4)%Z ->
   exists label,
     DR_LEVELS lvl = Some label /\
     List.filter snd (severity_scale lvl) = [(label, true)]) /\
  (~ (0 <= lvl <= 4)%Z ->
   DR_LEVELS lvl = None /\ List.filter snd (severity_scale lvl) = []).
Proof.
  split; [reflexivity|]. split.
  - intros H.
    assert (lvl = 0 \/ lvl = 1 \/ lvl = 2 \/ lvl = 3 \/ lvl = 4)%Z
      as [->|[->|[->|[->| ->]]]] by lia; eexists; split; reflexivity.
  - intros H.
    assert (severity_scale lvl =
              [("No DR", (lvl =? 0)%Z); ("Mild DR", (lvl =? 1)%Z);
               ("Moderate DR", (lvl =? 2)%Z); ("Severe DR", (lvl =? 3)%Z);
               ("Proliferative DR", (lvl =? 4)%Z)]) as -> by reflexivity.
    cbn [List.filter snd].
    destruct (Z.eqb_spec lvl 0); [lia|].
    destruct (Z.eqb_spec lvl 1); [lia|].
    destruct (Z.eqb_spec lvl 2); [lia|].
    destruct (Z.eqb_spec lvl 3); [lia|].
    destruct (Z.eqb_spec lvl 4); [lia|].
    split; [|reflexivity].
    destruct lvl as [|q|q]; try reflexivity; try lia.
    do 3 (destruct q as [q|q|]; try reflexivity; try lia).
Qed.

(** ** The filter sliders *)

(** X19.  Moving a slider sets its own value and leaves the other two;
    of two moves of the same slider the last one counts; moves of
    different sliders can be swapped; setting a slider to the value it
    has changes nothing. *)
Theorem handleChange_updates_one_slider
    (key key' : FilterKey) (v v' : Z) (f : ImageFilters) :
  filter_get key (handleChange key v f) = v /\
  (key <> key' ->
   filter_get key' (handleChange key v f) = filter_get key' f) /\
  handleChange key v' (handleChange key v f) = handleChange key v' f /\
  (key <> key' ->
   handleChange key v (handleChange key' v' f) =
     handleChange key' v' (handleChange key v f)) /\
  handleChange key (filter_get key f) f = f.
Proof.
  destruct f as [b c s0].
  destruct key, key'; simpl; repeat split; congruence.
Qed.

(** ** Object URLs under a stable history setter *)

Lemma onDrop_catch_no_capture err w :
  objectUrls (onDrop_catch None err w) = objectUrls w.
Proof. reflexivity. Qed.

Lemma race_settled_no_capture d o u w :
  objectUrls (race_settled None d o u w) = objectUrls w.
Proof.
  destruct (race_settled_cases None d o u w) as [(m & _ & ->)|(lvl & _ & ->)];
    reflexivity.
Qed.

Lemma set_phase_objectUrls a p w : objectUrls (set_phase a p w) = objectUrls w.
Proof. apply set_phase_frame. Qed.

Lemma reader_onload_no_capture a result w :
  objectUrls (reader_onload a None result w) = objectUrls w.
Proof.
  unfold reader_onload.
  destruct result as [imageData|];
    [destruct (Js.is_empty imageData);
     [|destruct (analyzeImage_begin _ _)]|];
    rewrite ?onDrop_catch_no_capture; cbn [generateContent objectUrls];
    apply set_phase_objectUrls.
Qed.

Lemma step_no_capture w ev w' :
  no_capture w -> step w ev = Some w' -> no_capture w'.
Proof.
  intros [Hst Hall] Hstep. split; [by rewrite (step_env _ _ _ Hstep)|].
  destruct (step_work_shape _ _ _ Hstep)
    as [[_ [-> |(b & at_b & p & Hb & _ & _ & ->)]]
       |[[_ ->]|(b & at_b & d & req & Hb & _ & _ & _ & ->)]].
  - exact Hall.
  - rewrite (attempts_set_phase _ _ _ _ Hb). apply Forall_insert; [exact Hall|].
    simpl. eapply Forall_lookup_1 in Hall; eauto.
  - apply Forall_app. split; [exact Hall|]. constructor; [|constructor].
    simpl. unfold onDrop_image. by rewrite Hst.
  - rewrite (attempts_set_phase _ _ _ _ Hb). apply Forall_insert; [exact Hall|].
    simpl. eapply Forall_lookup_1 in Hall; eauto.
Qed.

Lemma step_urls_no_capture w ev w' :
  no_capture w -> ev <> ClickReset -> step w ev = Some w' ->
  objectUrls w' = rev (accepted_urls [ev]) ++ objectUrls w.
Proof.
  intros [Hst Hall] Hne Hstep.
  assert (forall a at_, attempts w !! a = Some at_ -> closure_image at_ = None)
    as Hcl by (intros a at_ Ha; eapply Forall_lookup_1 in Hall; eauto).
  destruct ev; try contradiction; simpl in Hstep;
    unfold network_settles, timer_fires, reader_onerror in Hstep;
    repeat match type of Hstep with
           | context [match ?x with _ => _ end] => destruct x eqn:?
           end;
    try discriminate; injection Hstep as <-;
    repeat match goal with
           | H : attempts w !! _ = Some ?x |- _ =>
               rewrite (Hcl _ _ H); clear H
           end;
    rewrite ?race_settled_no_capture, ?reader_onload_no_capture,
      ?onDrop_catch_no_capture, ?set_phase_objectUrls;
    try reflexivity.
  unfold onDrop, accepted_urls. destruct acceptedFiles as [|file ?];
    [reflexivity|]. simpl.
  unfold onDrop_image. rewrite Hst.
  destruct (onDrop_validate file); reflexivity.
Qed.

Lemma accepted_urls_cons ev evs :
  accepted_urls (ev :: evs) = accepted_urls [ev] ++ accepted_urls evs.
Proof. unfold accepted_urls. simpl. by rewrite app_nil_r. Qed.

(** X20.  When the setter of the history keeps its identity across
    renders, [onDrop] never releases an object URL: apart from the reset
    button, nothing revokes.  Over any run without a reset, the live
    object URLs are exactly those created by the accepted drops, newest
    first, one per attempt, whether the attempts succeeded or failed. *)
Theorem urls_released_only_by_reset
    (e : Env) (stored : list AnalysisResult) (evs : list Event) (w : World) :
  setHistory_stable e = true ->
  no_reset evs ->
  run (initial e stored) evs = Some w ->
  objectUrls w = rev (accepted_urls evs) /\
  length (objectUrls w) = length (attempts w).
Proof.
  intros Hst Hnr Hrun.
  assert (forall evs w0 w,
            no_capture w0 -> no_reset evs -> run w0 evs = Some w ->
            objectUrls w = rev (accepted_urls evs) ++ objectUrls w0 /\
            no_capture w) as Hgen.
  { clear. induction evs as [|ev evs IH]; intros w0 w Hc Hnr Hrun.
    - injection Hrun as <-. auto.
    - simpl in Hrun. destruct (step w0 ev) as [w1|] eqn:E; [|discriminate].
      apply Forall_cons in Hnr as [Hne Hnr].
      destruct (IH w1 w (step_no_capture _ _ _ Hc E) Hnr Hrun) as [-> Hc'].
      split; [|exact Hc'].
      rewrite (accepted_urls_cons ev evs), rev_app_distr,
        (step_urls_no_capture _ _ _ Hc Hne E).
      by rewrite app_assoc. }
  destruct (Hgen evs (initial e stored) w) as [Hu _]; auto.
  { split; [exact Hst|constructor]. }
  simpl in Hu. rewrite app_nil_r in Hu. split; [exact Hu|].
  rewrite Hu, length_rev. clear Hu Hgen.
  assert (forall evs w0 w,
            no_reset evs -> run w0 evs = Some w ->
            length (attempts w) = length (accepted_urls evs) + length (attempts w0))
    as Hlen.
  { clear. induction evs as [|ev evs IH]; intros w0 w Hnr Hrun.
    - by injection Hrun as <-.
    - simpl in Hrun. destruct (step w0 ev) as [w1|] eqn:E; [|discriminate].
      apply Forall_cons in Hnr as [Hne Hnr].
      rewrite (IH _ _ Hnr Hrun), (accepted_urls_cons ev evs), length_app.
      assert (length (attempts w1) =
                length (accepted_urls [ev]) + length (attempts w0)); [|lia].
      clear IH Hrun Hnr.
      destruct ev; simpl in E; unfold network_settles, timer_fires,
        reader_onerror in E;
        repeat match type of E with
               | context [match ?x with _ => _ end] => destruct x eqn:?
               end;
        try discriminate; injection E as <-;
        rewrite ?race_settled_attempts, ?onDrop_catch_attempts,
          ?set_phase_length; try reflexivity; try contradiction.
      + unfold onDrop, accepted_urls. destruct acceptedFiles as [|file ?];
          [reflexivity|]. simpl.
        destruct (onDrop_validate file);
          [by rewrite onDrop_catch_attempts|].
        simpl. rewrite length_app. simpl. lia.
      + destruct (reader_onload_attempts a (closure_image a0) result w0)
          as (p & _ & ->). apply set_phase_length. }
  rewrite (Hlen evs (initial e stored) w Hnr Hrun). simpl. lia.
Qed.

Lemma urls_released_only_by_reset_witness :
  objectUrls (world_after (overlap_trace ++ [answer_to_first])) =
    ["blob:2"; "blob:1"] /\
  length (objectUrls (world_after (overlap_trace ++ [answer_to_first]))) =
    length (attempts (world_after (overlap_trace ++ [answer_to_first]))).
Proof.
  apply (urls_released_only_by_reset env0 []
           (overlap_trace ++ [answer_to_first])).
  - reflexivity.
  - repeat constructor; discriminate.
  - vm_compute. reflexivity.
Defined.

(** ** Order of the history *)





(** ** Outcomes of an attempt *)


